(** * archstats: the metrics transformers and the group update loop

    A shallow embedding of [archstats/archstats.py] (the EPICS Archiver
    Appliance statistics IOC) and the properties of its transformation
    pipeline and of its polling loop.

    Conventions of the embedding.
    - A Python [str] is a [string] with one character per code point; code
      points above 255 are outside the model.  The character U+00BB (the
      right guillemet of the appliance's labels) is ["187"%char].
    - A Python [int] is a [Z]; a Python [float] is an IEEE binary64 value,
      a [spec_float] used at precision 53 and maximal exponent 1024.
    - A decoded JSON document and the result of a literal evaluation are
      both values of [pyval].  Complex numbers are not represented.
    - Code that can raise returns an [outcome]; the exception classes that
      the code under study can meet are the constructors of [exn].
    - The recursion of [archiver_literal_eval] is bounded, as in the
      interpreter, by the depth of calls still allowed: the [fuel] of the
      transformers. *)

From stdpp Require Import gmap strings list.
From Stdlib Require Import ZArith String Ascii List Lia Bool.
From Stdlib Require Import Floats.SpecFloat.
Import ListNotations.

Local Open Scope string_scope.
Local Open Scope list_scope.
Local Open Scope Z_scope.

(** ** Python values *)

Module Py.

#[warnings="-register-all"]
Inductive pyval : Type :=
| PNone
| PEllipsis
| PBool (b : bool)
| PInt (z : Z)
| PFloat (f : spec_float)
| PStr (s : string)
| PBytes (s : string)
| PTuple (l : list pyval)
| PList (l : list pyval)
| PSet (l : list pyval)
| PDict (l : list (pyval * pyval)).

Inductive pytype : Type :=
| TNone | TEllipsis | TBool | TInt | TFloat | TStr | TBytes
| TTuple | TList | TSet | TDict.

Definition type_of (v : pyval) : pytype :=
  match v with
  | PNone => TNone
  | PEllipsis => TEllipsis
  | PBool _ => TBool
  | PInt _ => TInt
  | PFloat _ => TFloat
  | PStr _ => TStr
  | PBytes _ => TBytes
  | PTuple _ => TTuple
  | PList _ => TList
  | PSet _ => TSet
  | PDict _ => TDict
  end.

(** [isinstance(v, tuple)] *)
Definition is_tuple (v : pyval) : bool :=
  match v with PTuple _ => true | _ => false end.

(** [isinstance(v, str)] *)
Definition is_str (v : pyval) : bool :=
  match v with PStr _ => true | _ => false end.

Inductive exn : Type :=
| KeyError | TypeError | ValueError | IndexError | AttributeError
| OverflowError | ZeroDivisionError
| TransportError.

Inductive outcome (A : Type) : Type :=
| Ok (a : A)
| Raise (e : exn).

Arguments Ok {A} a.
Arguments Raise {A} e.

Definition bind {A B} (m : outcome A) (k : A -> outcome B) : outcome B :=
  match m with
  | Ok a => k a
  | Raise e => Raise e
  end.

(** ** binary64 arithmetic *)

Definition prec64 : Z := 53.
Definition emax64 : Z := 1024.

Definition float64_of_Z (z : Z) : spec_float :=
  binary_normalize prec64 emax64 z 0 false.

(** [float(int)]: correctly rounded, [OverflowError] past the largest
    finite double. *)
Definition float_of_int (z : Z) : outcome spec_float :=
  match float64_of_Z z with
  | S754_infinity _ => Raise OverflowError
  | f => Ok f
  end.

Definition float_is_zero (f : spec_float) : bool :=
  match f with S754_zero _ => true | _ => false end.

Definition Z_of_bool (b : bool) : Z := if b then 1 else 0.

(** The float a number converts to when it meets a float operand. *)
Definition as_float (v : pyval) : outcome spec_float :=
  match v with
  | PBool b => float_of_int (Z_of_bool b)
  | PInt z => float_of_int z
  | PFloat f => Ok f
  | _ => Raise TypeError
  end.

(** [v / d] for a float [d]. *)
Definition truediv_float (v : pyval) (d : spec_float) : outcome pyval :=
  bind (as_float v) (fun f =>
    if float_is_zero d then Raise ZeroDivisionError
    else Ok (PFloat (SFdiv prec64 emax64 f d))).

(** [v * d] for a float [d]. *)
Definition mul_float (v : pyval) (d : spec_float) : outcome pyval :=
  bind (as_float v) (fun f => Ok (PFloat (SFmul prec64 emax64 f d))).

(** The truth value of [v] in a condition. *)
Definition truthy (v : pyval) : bool :=
  match v with
  | PNone => false
  | PEllipsis => true
  | PBool b => b
  | PInt z => negb (z =? 0)
  | PFloat f => negb (float_is_zero f)
  | PStr s => negb (String.eqb s "")
  | PBytes s => negb (String.eqb s "")
  | PTuple l | PList l | PSet l => match l with [] => false | _ => true end
  | PDict l => match l with [] => false | _ => true end
  end.

(** *** Subscripting *)

Definition index_list {A} (l : list A) (i : Z) : outcome A :=
  let n := Z.of_nat (List.length l) in
  let j := if i <? 0 then i + n else i in
  if (0 <=? j) && (j <? n) then
    match nth_error l (Z.to_nat j) with
    | Some a => Ok a
    | None => Raise IndexError
    end
  else Raise IndexError.

(** Whether a dictionary key compares equal to the integer [i]. *)
Definition key_is_int (k : pyval) (i : Z) : bool :=
  match k with
  | PInt z => z =? i
  | PBool b => Z_of_bool b =? i
  | PFloat f => SFeqb f (float64_of_Z i)
  | _ => false
  end.

Definition key_is_str (k : pyval) (s : string) : bool :=
  match k with
  | PStr t => String.eqb t s
  | _ => false
  end.

Fixpoint dict_find (p : pyval -> bool) (d : list (pyval * pyval)) : outcome pyval :=
  match d with
  | [] => Raise KeyError
  | (k, v) :: d' => if p k then Ok v else dict_find p d'
  end.

(** [v[i]] for an integer [i]. *)
Definition getitem_int (v : pyval) (i : Z) : outcome pyval :=
  match v with
  | PList l | PTuple l => index_list l i
  | PStr s => bind (index_list (list_ascii_of_string s) i)
                (fun c => Ok (PStr (String c EmptyString)))
  | PBytes s => bind (index_list (list_ascii_of_string s) i)
                (fun c => Ok (PInt (Z.of_N (N_of_ascii c))))
  | PDict d => dict_find (fun k => key_is_int k i) d
  | _ => Raise TypeError
  end.

(** [v[k]] for a string [k]. *)
Definition getitem_str (v : pyval) (k : string) : outcome pyval :=
  match v with
  | PDict d => dict_find (fun k' => key_is_str k' k) d
  | _ => Raise TypeError
  end.

(** [d[k] = x] on the entries of a dictionary: the value of an existing key
    is replaced in place, a new key goes last. *)
Fixpoint dict_set (d : list (pyval * pyval)) (k : string) (x : pyval)
  : list (pyval * pyval) :=
  match d with
  | [] => [(PStr k, x)]
  | (k', v) :: d' =>
      if key_is_str k' k then (k', x) :: d' else (k', v) :: dict_set d' k x
  end.

(** The elements a [for] loop draws from [v]. *)
Definition iterate (v : pyval) : outcome (list pyval) :=
  match v with
  | PList l | PTuple l | PSet l => Ok l
  | PDict d => Ok (List.map fst d)
  | PStr s => Ok (List.map (fun c => PStr (String c EmptyString))
                           (list_ascii_of_string s))
  | PBytes s => Ok (List.map (fun c => PInt (Z.of_N (N_of_ascii c)))
                             (list_ascii_of_string s))
  | _ => Raise TypeError
  end.

(** [v.items()] *)
Definition items (v : pyval) : outcome (list (pyval * pyval)) :=
  match v with
  | PDict d => Ok d
  | _ => Raise AttributeError
  end.

(** A comprehension body run over a list, left to right, stopping at the
    first exception. *)
Fixpoint for_each {A B} (f : A -> outcome (list B)) (l : list A)
  : outcome (list B) :=
  match l with
  | [] => Ok []
  | a :: l' => bind (f a) (fun bs =>
               bind (for_each f l') (fun rest => Ok (bs ++ rest)))
  end.

End Py.
Export Py.

Notation "'let*' x ':=' m 'in' k" := (bind m (fun x => k))
  (at level 10, x name, m at level 100, k at level 200).

(** ** String methods *)

Module Str.

(** [s.startswith(p)] *)
Definition startswith (p s : string) : bool := String.prefix p s.

(** [s.endswith(p)] *)
Definition endswith (p s : string) : bool :=
  let n := String.length s in
  let m := String.length p in
  (m <=? n)%nat && String.eqb (substring (n - m) m s) p.

(** [s.replace(old, new)] for a non-empty [old]: the occurrences of [old]
    are found left to right and do not overlap; [skip] counts the
    characters of the current occurrence still to be passed over. *)
Fixpoint replace_from (old new : string) (skip : nat) (s : string) : string :=
  match s with
  | EmptyString => EmptyString
  | String c s' =>
      match skip with
      | S k => replace_from old new k s'
      | O =>
          if String.prefix old s
          then new +:+ replace_from old new (String.length old - 1) s'
          else String c (replace_from old new 0 s')
      end
  end.

Definition replace (old new s : string) : string := replace_from old new 0 s.

(** [s.rsplit(sep, 1)] for a one-character [sep], when it yields two parts;
    [None] when [sep] does not occur and the result has a single part. *)
Fixpoint rsplit1 (sep : ascii) (s : string) : option (string * string) :=
  match s with
  | EmptyString => None
  | String c s' =>
      match rsplit1 sep s' with
      | Some (a, b) => Some (String c a, b)
      | None => if Ascii.eqb c sep then Some (EmptyString, s') else None
      end
  end.

(** [s.rstrip(c)] for a one-character [c]. *)
Fixpoint rstrip (c : ascii) (s : string) : string :=
  match s with
  | EmptyString => EmptyString
  | String x s' =>
      match rstrip c s' with
      | EmptyString => if Ascii.eqb x c then EmptyString else String x EmptyString
      | t => String x t
      end
  end.

(** [s.split(sep, 1)[0]] for a one-character [sep]. *)
Fixpoint split1_head (sep : ascii) (s : string) : string :=
  match s with
  | EmptyString => EmptyString
  | String c s' => if Ascii.eqb c sep then EmptyString else String c (split1_head sep s')
  end.

(** [s[:-n]] *)
Definition drop_last (n : nat) (s : string) : string :=
  substring 0 (String.length s - n) s.

Definition is_upper (c : ascii) : bool :=
  let n := N_of_ascii c in ((65 <=? n) && (n <=? 90))%N.
Definition is_lower (c : ascii) : bool :=
  let n := N_of_ascii c in ((97 <=? n) && (n <=? 122))%N.
Definition is_digit (c : ascii) : bool :=
  let n := N_of_ascii c in ((48 <=? n) && (n <=? 57))%N.

(** [upper] and [lower] of one character, for ASCII text: the letters
    [a]-[z] and [A]-[Z] change case, every other ASCII character is kept.
    (The case of letters outside ASCII is not modelled; [key_to_pv] only
    meets ASCII text here, after the transliteration.) *)
Definition upper_char (c : ascii) : ascii :=
  if is_lower c then ascii_of_N (N_of_ascii c - 32) else c.
Definition lower_char (c : ascii) : ascii :=
  if is_upper c then ascii_of_N (N_of_ascii c + 32) else c.

Fixpoint map_chars (f : ascii -> ascii) (s : string) : string :=
  match s with
  | EmptyString => EmptyString
  | String c s' => String (f c) (map_chars f s')
  end.

(** Whether [p] occurs in [s]. *)
Fixpoint contains (p s : string) : bool :=
  String.prefix p s ||
  match s with
  | EmptyString => false
  | String _ s' => contains p s'
  end.

End Str.

(** ** The inflection library

    [parameterize] and [camelize] of the [inflection] package, which
    [key_to_pv] and the transformers call.  Both are regular-expression
    substitutions; they are written here as the scans those substitutions
    perform. *)

Module Inflection.

(** What is left of the compatibility decomposition (NFKD) of a code point
    once the non-ASCII code points are dropped, for the Latin-1 range. *)
Definition nfkd_ascii (c : ascii) : string :=
  let n := N_of_ascii c in
  let within a b := ((a <=? n) && (n <=? b))%N in
  if (n <? 128)%N then String c EmptyString
  else if (n =? 160)%N || (n =? 168)%N || (n =? 175)%N
          || (n =? 180)%N || (n =? 184)%N then " "
  else if (n =? 170)%N then "a"
  else if (n =? 178)%N then "2"
  else if (n =? 179)%N then "3"
  else if (n =? 185)%N then "1"
  else if (n =? 186)%N then "o"
  else if (n =? 188)%N then "14"
  else if (n =? 189)%N then "12"
  else if (n =? 190)%N then "34"
  else if within 192%N 197%N then "A"
  else if (n =? 199)%N then "C"
  else if within 200%N 203%N then "E"
  else if within 204%N 207%N then "I"
  else if (n =? 209)%N then "N"
  else if within 210%N 214%N then "O"
  else if within 217%N 220%N then "U"
  else if (n =? 221)%N then "Y"
  else if within 224%N 229%N then "a"
  else if (n =? 231)%N then "c"
  else if within 232%N 235%N then "e"
  else if within 236%N 239%N then "i"
  else if (n =? 241)%N then "n"
  else if within 242%N 246%N then "o"
  else if within 249%N 252%N then "u"
  else if (n =? 253)%N || (n =? 255)%N then "y"
  else EmptyString.

(** [transliterate]: NFKD, then [encode('ascii', 'ignore')]. *)
Fixpoint transliterate (s : string) : string :=
  match s with
  | EmptyString => EmptyString
  | String c s' => nfkd_ascii c +:+ transliterate s'
  end.

(** The class [[a-z0-9\-_]] under [(?i)], on ASCII text. *)
Definition wanted (c : ascii) : bool :=
  Str.is_lower c || Str.is_upper c || Str.is_digit c
  || Ascii.eqb c "-" || Ascii.eqb c "_".

(** [re.sub(r"(?i)[^a-z0-9\-_]+", "-", s)]: each maximal run of unwanted
    characters becomes one separator. *)
Fixpoint separate (in_run : bool) (s : string) : string :=
  match s with
  | EmptyString => EmptyString
  | String c s' =>
      if wanted c then String c (separate false s')
      else if in_run then separate true s'
      else String "-" (separate true s')
  end.

(** [re.sub(r"-{2,}", "-", s)] *)
Fixpoint squeeze (after_dash : bool) (s : string) : string :=
  match s with
  | EmptyString => EmptyString
  | String c s' =>
      if Ascii.eqb c "-" then
        if after_dash then squeeze true s' else String c (squeeze true s')
      else String c (squeeze false s')
  end.

Definition drop_leading_dash (s : string) : string :=
  match s with
  | String "-" s' => s'
  | _ => s
  end.

Fixpoint drop_trailing_dash (s : string) : string :=
  match s with
  | EmptyString => EmptyString
  | String c s' =>
      match s' with
      | EmptyString => if Ascii.eqb c "-" then EmptyString else s
      | _ => String c (drop_trailing_dash s')
      end
  end.

(** [re.sub(r"(?i)^-|-$", "", s)] on text without line breaks. *)
Definition trim_dashes (s : string) : string :=
  drop_trailing_dash (drop_leading_dash s).

(** [inflection.parameterize(s)] with the default separator ["-"]. *)
Definition parameterize (s : string) : string :=
  Str.map_chars Str.lower_char
    (trim_dashes (squeeze false (separate false (transliterate s)))).

Definition is_newline (c : ascii) : bool := Ascii.eqb c "010".

(** [re.sub(r"(?:^|_)(.)", lambda m: m.group(1).upper(), s)]: the character
    at the start of the text and the character after an underscore are put
    in upper case and the underscore is dropped; [.] does not match a line
    break. *)
Fixpoint camelize_from (at_start : bool) (s : string) : string :=
  match s with
  | EmptyString => EmptyString
  | String c s' =>
      if at_start then
        if is_newline c then String c (camelize_from false s')
        else String (Str.upper_char c) (camelize_from false s')
      else if Ascii.eqb c "_" then
        match s' with
        | EmptyString => String c EmptyString
        | String d s'' =>
            if is_newline d then String c (camelize_from false s')
            else String (Str.upper_char d) (camelize_from false s'')
        end
      else String c (camelize_from false s')
  end.

(** [inflection.camelize(s)] with the default [uppercase_first_letter].
    The upper case is that of [Str.upper_char]: the result is the library's
    when the characters put in upper case are ASCII, as they are in
    [key_to_pv], which camelizes a parametrized text. *)
Definition camelize (s : string) : string := camelize_from true s.

End Inflection.

(** ** [key_to_pv] *)

Definition guillemet : string := String "187" EmptyString.

Definition key_to_pv (key : string) : string :=
  let key := Str.replace "&raquo;" " to " key in
  let key := Str.replace "/" " per " key in
  let key := Str.replace "ETL" " ETL " key in
  let key := if Str.endswith "rate" key
             then Str.drop_last 4 key +:+ "Rate" else key in
  let parametrized := Inflection.parameterize key in
  Inflection.camelize (Str.replace "-" "_" parametrized).

(** ** A fragment of [ast.literal_eval]

    The transformers are stated over an arbitrary literal evaluator (the
    library function is not part of this repository).  To run them on
    concrete text this module gives the evaluator on a fragment of the
    literal syntax: decimal integers with an optional sign, [True], [False],
    [None], quoted strings without escapes, and tuples and lists of these,
    separated by spaces or tabs.  Text outside the fragment (floats, dicts,
    sets, bytes, other number bases, digit separators, escapes, comments,
    line breaks, adjacent strings) is reported as a failure and must not be
    used with it. *)

Module Literal.

Inductive token : Type :=
| KInt (ds : list ascii)
| KStr (s : string)
| KName (s : string)
| KOpen | KClose | KOpenList | KCloseList | KComma | KMinus | KPlus.

Inductive lexer : Type :=
| Idle
| InInt (ds : list ascii)
| InName (cs : string)
| InStr (quote : ascii) (cs : string).

Definition is_name_char (c : ascii) : bool :=
  Str.is_lower c || Str.is_upper c || Ascii.eqb c "_".

Definition is_quote (c : ascii) : bool :=
  Ascii.eqb c "'" || Ascii.eqb c "034".

Definition is_blank (c : ascii) : bool :=
  Ascii.eqb c " " || Ascii.eqb c "009".

(** What a character does when no token is open: [None] if it cannot start
    anything, else the token it completes (if any) and the next state. *)
Definition open_token (c : ascii) : option (option token * lexer) :=
  if is_blank c then Some (None, Idle)
  else if Str.is_digit c then Some (None, InInt [c])
  else if is_name_char c then Some (None, InName (String c EmptyString))
  else if is_quote c then Some (None, InStr c EmptyString)
  else if Ascii.eqb c "(" then Some (Some KOpen, Idle)
  else if Ascii.eqb c ")" then Some (Some KClose, Idle)
  else if Ascii.eqb c "[" then Some (Some KOpenList, Idle)
  else if Ascii.eqb c "]" then Some (Some KCloseList, Idle)
  else if Ascii.eqb c "," then Some (Some KComma, Idle)
  else if Ascii.eqb c "-" then Some (Some KMinus, Idle)
  else if Ascii.eqb c "+" then Some (Some KPlus, Idle)
  else None.

Definition push (t : option token) (ts : option (list token))
  : option (list token) :=
  match t, ts with
  | Some t, Some ts => Some (t :: ts)
  | None, Some ts => Some ts
  | _, None => None
  end.

Fixpoint lex (st : lexer) (s : string) : option (list token) :=
  match s with
  | EmptyString =>
      match st with
      | Idle => Some []
      | InInt ds => Some [KInt ds]
      | InName cs => Some [KName cs]
      | InStr _ _ => None
      end
  | String c s' =>
      match st with
      | Idle =>
          match open_token c with
          | Some (t, st') => push t (lex st' s')
          | None => None
          end
      | InInt ds =>
          if Str.is_digit c then lex (InInt (ds ++ [c])) s'
          else if is_name_char c || is_quote c || Ascii.eqb c "." then None
          else match open_token c with
               | Some (t, st') => push (Some (KInt ds)) (push t (lex st' s'))
               | None => None
               end
      | InName cs =>
          if is_name_char c || Str.is_digit c
          then lex (InName (cs +:+ String c EmptyString)) s'
          else if is_quote c || Ascii.eqb c "." then None
          else match open_token c with
               | Some (t, st') => push (Some (KName cs)) (push t (lex st' s'))
               | None => None
               end
      | InStr q cs =>
          if Ascii.eqb c q then push (Some (KStr cs)) (lex Idle s')
          else if Ascii.eqb c "\" || Ascii.eqb c "010" || Ascii.eqb c "013"
          then None
          else lex (InStr q (cs +:+ String c EmptyString)) s'
      end
  end.

Definition digit_value (c : ascii) : Z := Z.of_N (N_of_ascii c) - 48.

(** A decimal integer literal: digits, with no leading zero unless every
    digit is zero. *)
Definition int_of_digits (ds : list ascii) : option Z :=
  let v := fold_left (fun acc c => 10 * acc + digit_value c) ds 0 in
  match ds with
  | [] => None
  | d :: _ => if Ascii.eqb d "0" && negb (v =? 0) then None else Some v
  end.

Definition constant (t : token) : option pyval :=
  match t with
  | KInt ds => option_map PInt (int_of_digits ds)
  | KStr s => Some (PStr s)
  | KName s =>
      if String.eqb s "True" then Some (PBool true)
      else if String.eqb s "False" then Some (PBool false)
      else if String.eqb s "None" then Some PNone
      else None
  | _ => None
  end.

(** [atom] reads one value; [sequence] reads values separated by commas,
    with an optional last comma, and reports whether a comma was read. *)
Fixpoint atom (n : nat) (ts : list token) : option (pyval * list token) :=
  match n with
  | O => None
  | S n' =>
      match ts with
      | KMinus :: KInt ds :: r =>
          option_map (fun z => (PInt (- z), r)) (int_of_digits ds)
      | KPlus :: KInt ds :: r =>
          option_map (fun z => (PInt z, r)) (int_of_digits ds)
      | KOpen :: KClose :: r => Some (PTuple [], r)
      | KOpen :: r =>
          match sequence n' r with
          | Some (vs, comma, KClose :: r') =>
              match vs, comma with
              | [v], false => Some (v, r')
              | _, _ => Some (PTuple vs, r')
              end
          | _ => None
          end
      | KOpenList :: KCloseList :: r => Some (PList [], r)
      | KOpenList :: r =>
          match sequence n' r with
          | Some (vs, _, KCloseList :: r') => Some (PList vs, r')
          | _ => None
          end
      | t :: r => option_map (fun v => (v, r)) (constant t)
      | [] => None
      end
  end
with sequence (n : nat) (ts : list token)
  : option (list pyval * bool * list token) :=
  match n with
  | O => None
  | S n' =>
      match atom n' ts with
      | Some (v, KComma :: r) =>
          match sequence n' r with
          | Some (vs, _, r') => Some (v :: vs, true, r')
          | None => Some ([v], true, r)
          end
      | Some (v, r) => Some ([v], false, r)
      | None => None
      end
  end.

Definition literal_eval (s : string) : option pyval :=
  match lex Idle s with
  | Some ts =>
      match sequence (2 * List.length ts + 2) ts with
      | Some ([v], false, []) => Some v
      | Some (vs, true, []) => Some (PTuple vs)
      | _ => None
      end
  | None => None
  end.

End Literal.

(** ** The value coercer and the attribute specifications *)

Inductive record_type : Type := bi | ai | longin | stringin.

Record pvproperty_kwargs : Type := {
  doc : string;
  record : record_type;
  report_as_string : option bool;
  max_length : option Z
}.

(** One entry of a transformer's result: [name], [value] and, except for
    the process metrics, [kwargs]. *)
Record field : Type := {
  f_name : string;
  f_value : pyval;
  f_kwargs : option pvproperty_kwargs
}.

Definition f1024 : spec_float := float64_of_Z 1024.
Definition f0 : spec_float := S754_zero false.

(** A method of [str] called on [v]. *)
Definition as_str (v : pyval) : outcome string :=
  match v with
  | PStr s => Ok s
  | _ => Raise AttributeError
  end.

(** [a + b] where [b] is a string. *)
Definition add_str (a : pyval) (b : string) : outcome string :=
  match a with
  | PStr s => Ok (s +:+ b)
  | _ => Raise TypeError
  end.

Section Transformers.

(** [ast.literal_eval] on a string: [None] when it raises. *)
Variable literal_eval : string -> option pyval.

(** [fuel] is the depth of recursion that the interpreter still allows.
    The only call inside the [try] is the one of [ast.literal_eval]: when
    the depth is used up it is that call that raises [RecursionError], and
    the handler returns the value, as it does for every other exception.
    [ast.literal_eval] raises a [ValueError] on anything that is not a
    string (the decoded JSON numbers, booleans, nulls, lists and objects),
    which the handler turns into the value itself. *)
Fixpoint archiver_literal_eval (fuel : nat) (value : pyval) : outcome pyval :=
  match fuel with
  | O => Ok value
  | S fuel' =>
      match value with
      | PStr s =>
          match literal_eval s with
          | None => Ok value
          | Some evaluated =>
              if is_tuple evaluated
              then archiver_literal_eval fuel' (PStr (Str.replace "," "" s))
              else Ok evaluated
          end
      | _ => Ok value
      end
  end.

(** The dictionary lookup [{bool: 'bi', float: 'ai', int: 'longin',
    str: 'stringin'}[type(value)]]. *)
Definition record_of_type (t : pytype) : outcome record_type :=
  match t with
  | TBool => Ok bi
  | TFloat => Ok ai
  | TInt => Ok longin
  | TStr => Ok stringin
  | _ => Raise KeyError
  end.

Definition _value_to_pvproperty_kwargs (fuel : nat) (key : string) (value : pyval)
  : outcome (pyval * pvproperty_kwargs) :=
  let* value := archiver_literal_eval fuel value in
  let* rec := record_of_type (type_of value) in
  let kwargs :=
    if is_str value
    then {| doc := key; record := rec;
            report_as_string := Some true; max_length := Some 2000 |}
    else {| doc := key; record := rec;
            report_as_string := None; max_length := None |} in
  Ok (value, kwargs).

Definition make_field (name : string) (spec : pyval * pvproperty_kwargs) : field :=
  {| f_name := name; f_value := fst spec; f_kwargs := Some (snd spec) |}.

(** *** Instance metrics *)

Definition to_instance_pv (instance_dict key : pyval) : outcome string :=
  let* instance := getitem_str instance_dict "instance" in
  let* prefix := add_str instance ":" in
  let* key := as_str key in
  Ok (prefix +:+ key_to_pv key).

Definition instance_metrics_to_pvproperties (fuel : nat) (payload : pyval)
  : outcome (list field) :=
  let* dicts := iterate payload in
  for_each (fun instance_dict =>
    let* entries := items instance_dict in
    for_each (fun '(key, value) =>
      let* name := to_instance_pv instance_dict key in
      let* doc := as_str key in
      let* spec := _value_to_pvproperty_kwargs fuel doc value in
      Ok [make_field name spec]) entries) dicts.

(** *** Detailed metrics *)

Definition estimated_prefix : string := "Estimated bytes transferred in ETL".

(** The body of the loop of [load_and_filter] for one item: the item that is
    yielded. *)
Definition load_and_filter (fuel : nat) (item : pyval) : outcome pyval :=
  let* name := getitem_str item "name" in
  let* name := as_str name in
  if Str.startswith estimated_prefix name then
    let* value := getitem_str item "value" in
    let* value := archiver_literal_eval fuel value in
    match Str.rsplit1 "(" name with
    | None => Raise ValueError
    | Some (unitless_name, units) =>
        let units := Str.rstrip ")" units in
        let* value :=
          if truthy value then
            if String.eqb units "KB" then truediv_float value f1024
            else if String.eqb units "MB" then Ok value
            else if String.eqb units "GB" then mul_float value f1024
            else Ok value
          else Ok value in
        match item with
        | PDict d =>
            Ok (PDict (dict_set (dict_set d "name" (PStr (unitless_name +:+ "(MB)")))
                                "value" value))
        | _ => Raise TypeError
        end
    end
  else Ok item.

Definition detailed_metrics_to_pvproperties (fuel : nat) (instance : string)
  (payload : pyval) : outcome (list field) :=
  let* items := iterate payload in
  for_each (fun item =>
    let* item := load_and_filter fuel item in
    let* name := getitem_str item "name" in
    let* name := as_str name in
    let* value := getitem_str item "value" in
    let* spec := _value_to_pvproperty_kwargs fuel name value in
    Ok [make_field (key_to_pv name) spec]) items.

(** *** Storage metrics *)

Definition to_storage_pv (storage_dict key : pyval) : outcome string :=
  let* storage := getitem_str storage_dict "name" in
  let* prefix := add_str storage ":" in
  match key with
  | PStr key => Ok (prefix +:+ Inflection.camelize key)
  | _ => Raise TypeError
  end.

Definition storage_metrics_to_pvproperties (fuel : nat) (payload : pyval)
  : outcome (list field) :=
  let* dicts := iterate payload in
  for_each (fun storage_dict =>
    let* entries := items storage_dict in
    for_each (fun '(key, value) =>
      if key_is_str key "name" then Ok []
      else
        let* name := to_storage_pv storage_dict key in
        let* doc := as_str key in
        let* spec := _value_to_pvproperty_kwargs fuel doc value in
        Ok [make_field name spec]) entries) dicts.

End Transformers.

(** *** Process metrics *)

Definition get_value (data : pyval) : pyval :=
  if negb (truthy data) then PInt 0
  else
    match (let* last := getitem_int data (-1) in getitem_int last 1) with
    | Ok v => v
    | _ => PFloat f0
    end.

(** A keyword argument of [to_process_info]: its default when the key is
    absent. *)
Definition keyword (d : list (pyval * pyval)) (k : string) (default : pyval) : pyval :=
  match dict_find (fun k' => key_is_str k' k) d with
  | Ok v => v
  | _ => default
  end.

Definition to_process_info (metrics_dict : pyval) : outcome field :=
  match metrics_dict with
  | PDict d =>
      if forallb (fun kv => is_str (fst kv)) d then
        let label := keyword d "label" (PStr "unknown") in
        let data := keyword d "data" PNone in
        let* label := as_str label in
        Ok {| f_name := Inflection.camelize (Str.split1_head " " label);
              f_value := get_value data;
              f_kwargs := None |}
      else Raise TypeError
  | _ => Raise TypeError
  end.

Definition process_metrics_to_pvproperties (payload : pyval) : outcome (list field) :=
  let* dicts := iterate payload in
  for_each (fun metrics_dict =>
    let* info := to_process_info metrics_dict in Ok [info]) dicts.

(** ** The group update loop

    The collaborators of [Archstats] that live outside this file
    ([Request.make], the [pvproperty] attributes, [db_helper.store], the
    logger and the sleep of the asynchronous library) are modelled by
    what the loop can observe of them.  Their effects are recorded, in the
    order they happen, in a journal. *)

Inductive event : Type :=
| Warning_new_entry (item : field)
    (** [self.log.warning('Saw new entry: %s', item)] *)
| Exception_failed_update (attr : string) (item : field)
    (** [self.log.exception('Failed to update %s to %s', prop, item)] *)
| Exception_update_failed
    (** [self.log.exception('Update failed!')] *)
| Wrote (group : nat) (attr : string) (value : pyval)
    (** [prop.write(value=...)] returned *)
| Stored (group : nat)
    (** [group.db_helper.store()] returned *)
| Slept (milliseconds : Z).

(** What [request.make()] gives: the transformer's fields, or an exception
    (of the transport, of the JSON decoder or of the transformer). *)
Inductive response : Type :=
| Fetched (fields : list field)
| Failed (e : exn).

(** What the outside world does during one update of one group: the
    response to each of the group's requests, in order, and whether
    [db_helper.store()] raises. *)
Record tick : Type := {
  responses : list response;
  store_raises : option exn
}.

(** A [DatabaseBackedJSONRequestGroup]: [gid] stands for the identity of the
    object (the key of [_document_count]), [props] holds the value of each
    pvproperty attribute of the group. *)
Record group : Type := {
  gid : nat;
  key_to_attr_map : gmap string string;
  props : gmap string pyval;
  init_document : option (gmap string pyval)
}.

Record archstats : Type := {
  _dynamic_groups : list group;
  _document_count : gmap nat nat;
  journal : list event
}.

Definition set_prop (g : group) (attr : string) (v : pyval) : group :=
  {| gid := gid g; key_to_attr_map := key_to_attr_map g;
     props := <[attr := v]> (props g); init_document := init_document g |}.

Definition log (self : archstats) (evs : list event) : archstats :=
  {| _dynamic_groups := _dynamic_groups self;
     _document_count := _document_count self;
     journal := journal self ++ evs |}.

Definition set_journal (self : archstats) (j : list event) : archstats :=
  {| _dynamic_groups := _dynamic_groups self;
     _document_count := _document_count self;
     journal := j |}.

Definition set_count (self : archstats) (g n : nat) : archstats :=
  {| _dynamic_groups := _dynamic_groups self;
     _document_count := <[g := n]> (_document_count self);
     journal := journal self |}.

Definition set_groups (self : archstats) (gs : list group) : archstats :=
  {| _dynamic_groups := gs;
     _document_count := _document_count self;
     journal := journal self |}.

Definition update_rate : Z := 60.

Section Sync.

(** [prop.value != item['value']]; [None] when the comparison raises. *)
Variable value_ne : pyval -> pyval -> option bool.

(** [prop.write(value=v)] on the attribute [attr]: the value the attribute
    holds afterwards, or [None] when the write raises. *)
Variable write : string -> pyval -> option pyval.

(** The body of the [try] around the comparison and the write: [None] when
    it raises, else the written value if there was a write. *)
Definition compare_and_write (attr : string) (current new : pyval)
  : option (option pyval) :=
  match value_ne current new with
  | None => None
  | Some false => Some None
  | Some true =>
      match write attr new with
      | None => None
      | Some v => Some (Some v)
      end
  end.

(** The inner loop of [_update_group] over the fields of one response.  The
    result is the group, the journal, the flag [changed] and the exception
    that ended the loop, if any. *)
Fixpoint update_items (g : group) (j : list event) (changed : bool)
  (fields : list field) : group * list event * bool * option exn :=
  match fields with
  | [] => (g, j, changed, None)
  | item :: rest =>
      match key_to_attr_map g !! f_name item with
      | None => update_items g (j ++ [Warning_new_entry item]) changed rest
      | Some attr =>
          match props g !! attr with
          | None => (g, j, changed, Some AttributeError)
          | Some current =>
              match compare_and_write attr current (f_value item) with
              | Some (Some v) =>
                  update_items (set_prop g attr v)
                               (j ++ [Wrote (gid g) attr v]) true rest
              | Some None => update_items g j changed rest
              | None =>
                  update_items g (j ++ [Exception_failed_update attr item])
                               changed rest
              end
          end
      end
  end.

(** The outer loop of [_update_group] over the requests of the group. *)
Fixpoint update_requests (g : group) (j : list event) (changed : bool)
  (rs : list response) : group * list event * bool * option exn :=
  match rs with
  | [] => (g, j, changed, None)
  | Failed e :: _ => (g, j, changed, Some e)
  | Fetched fields :: rest =>
      match update_items g j changed fields with
      | (g', j', changed', None) => update_requests g' j' changed' rest
      | stopped => stopped
      end
  end.

Definition is_none {A} (o : option A) : bool :=
  match o with None => true | Some _ => false end.

(** [_update_group(self, group)]: the object, the group and the exception
    that escapes, if any. *)
Definition _update_group (self : archstats) (g : group) (t : tick)
  : archstats * group * option exn :=
  match update_requests g (journal self) false (responses t) with
  | (g', j', changed, Some e) => (set_journal self j', g', Some e)
  | (g', j', changed, None) =>
      let self := set_journal self j' in
      match _document_count self !! gid g' with
      | None => (self, g', Some KeyError)
      | Some count =>
          let first_document := Nat.eqb count 0 in
          if changed || (first_document && is_none (init_document g')) then
            match store_raises t with
            | Some e => (self, g', Some e)
            | None =>
                (set_count (log self [Stored (gid g')]) (gid g') (count + 1)%nat,
                 g', None)
            end
          else (self, g', None)
      end
  end.

(** The [for] loop of [updater]: the groups after it ran, the object, and
    the exception that ended it, if any.  [env] gives, for each group, what
    the outside world does during its update. *)
Fixpoint update_groups (self : archstats) (todo : list group) (env : nat -> tick)
  : list group * archstats * option exn :=
  match todo with
  | [] => ([], self, None)
  | g :: rest =>
      match _update_group self g (env (gid g)) with
      | (self', g', Some e) => (g' :: rest, self', Some e)
      | (self', g', None) =>
          match update_groups (log self' [Slept 100]) rest env with
          | (rest', self'', err) => (g' :: rest', self'', err)
          end
      end
  end.

(** One turn of the [while True] loop of [updater]. *)
Definition sweep (self : archstats) (env : nat -> tick) : archstats :=
  match update_groups self (_dynamic_groups self) env with
  | (groups, self', err) =>
      let self' := set_groups self' groups in
      let self' :=
        match err with
        | Some _ => log self' [Exception_update_failed; Slept 10000]
        | None => self'
        end in
      log self' [Slept (update_rate * 1000)]
  end.


(** The loop of [updater], for as many turns as [envs] describes. *)
Fixpoint updater (self : archstats) (envs : list (nat -> tick)) : archstats :=
  match envs with
  | [] => self
  | env :: envs' => updater (sweep self env) envs'
  end.

End Sync.


(** ** Definitions used to state the properties *)

(** A decoded JSON object. *)
Definition jobj (l : list (string * pyval)) : pyval :=
  PDict (List.map (fun kv => (PStr (fst kv), snd kv)) l).


(** What is left of [s] after the first occurrence of [p], if any. *)
Fixpoint after (p s : string) : option string :=
  if String.prefix p s then Some (substring (String.length p) (String.length s) s)
  else match s with
       | EmptyString => None
       | String _ s' => after p s'
       end.

(** Whether the segments occur in [s] one after the other. *)
Fixpoint in_order (segments : list string) (s : string) : bool :=
  match segments with
  | [] => true
  | p :: rest =>
      match after p s with
      | Some s' => in_order rest s'
      | None => false
      end
  end.

(** The types an attribute can be made of. *)
Definition hosted (v : pyval) : bool :=
  match type_of v with
  | TBool | TInt | TFloat | TStr => true
  | _ => false
  end.

(** [bool], [int] and [float] values. *)
Definition numeric (v : pyval) : bool :=
  match type_of v with
  | TBool | TInt | TFloat => true
  | _ => false
  end.

(** The number of snapshots stored for a group in a stretch of the journal. *)
Definition stored_count (g : nat) (evs : list event) : nat :=
  List.length (List.filter (fun ev => match ev with
                                      | Stored g' => Nat.eqb g g'
                                      | _ => false
                                      end) evs).

(** Whether an attribute of the group was written in a stretch of the
    journal. *)
Definition wrote (g : nat) (evs : list event) : bool :=
  existsb (fun ev => match ev with
                     | Wrote g' _ _ => Nat.eqb g g'
                     | _ => false
                     end) evs.


(** Collaborators for the examples: attributes that compare integers by
    value and take any other value for different, and that accept every
    write as it is. *)
Definition int_ne (a b : pyval) : option bool :=
  match a, b with
  | PInt x, PInt y => Some (negb (x =? y))
  | _, _ => Some true
  end.

Definition accept (attr : string) (v : pyval) : option pyval := Some v.

Definition label_entity : string :=
  "Avg time spent by getETLStreams() in ETL(0&raquo;1) (s/run)".

Definition label_guillemet : string :=
  "Avg time spent by getETLStreams() in ETL(0" +:+ guillemet +:+ "1) (s/run)".

Definition estimated_kb : string :=
  "Estimated bytes transferred in ETL(0" +:+ guillemet +:+ "1)(KB)".

(** A group with one attribute [foo], of value [1], known under the name
    [Foo]; an object that holds the given groups, as [_add_dynamic_group]
    leaves it. *)
Definition example_group (id : nat) (init : option (gmap string pyval)) : group :=
  {| gid := id;
     key_to_attr_map := {[ "Foo" := "foo" ]};
     props := {[ "foo" := PInt 1 ]};
     init_document := init |}.

Definition example_ioc (gs : list group) : archstats :=
  {| _dynamic_groups := gs;
     _document_count := list_to_map (List.map (fun g => (gid g, 0%nat)) gs);
     journal := [] |}.

Definition foo_field (z : Z) : field :=
  {| f_name := "Foo"; f_value := PInt z; f_kwargs := None |}.

Definition bar_field (z : Z) : field :=
  {| f_name := "Bar"; f_value := PInt z; f_kwargs := None |}.

(** Updates in which the value of [Foo] is the same, is new, and cannot be
    fetched. *)
Definition quiet_tick : tick :=
  {| responses := [Fetched [foo_field 1]]; store_raises := None |}.

Definition changing_tick : tick :=
  {| responses := [Fetched [foo_field 2]]; store_raises := None |}.

Definition failing_tick : tick :=
  {| responses := [Failed TransportError]; store_raises := None |}.

(** A sweep in which the fetch of group 0 fails and every other group has a
    new value. *)
Definition first_fails (id : nat) : tick :=
  if Nat.eqb id 0 then failing_tick else changing_tick.

(** A transformer's result that is one field, with the given name, value
    and documentation string. *)
Definition emits (result : outcome (list field)) (name : string)
  (value : pyval) (docstring : string) : Prop :=
  exists kw, result = Ok [{| f_name := name; f_value := value;
                             f_kwargs := Some kw |}]
             /\ doc kw = docstring.

(** ** Further definitions: the alphabet of identifiers *)

(** Whether every character of [s] satisfies [p]. *)
Fixpoint all_chars (p : ascii -> bool) (s : string) : bool :=
  match s with
  | EmptyString => true
  | String c s' => p c && all_chars p s'
  end.

(** The characters a parametrized text can hold, before and after its
    separators are turned into underscores. *)
Definition parametrized_char (c : ascii) : bool :=
  Str.is_lower c || Str.is_digit c || Ascii.eqb c "-" || Ascii.eqb c "_".

Definition underscored_char (c : ascii) : bool :=
  Str.is_lower c || Str.is_digit c || Ascii.eqb c "_".

(** The characters an identifier made by [key_to_pv] can hold. *)
Definition pv_char (c : ascii) : bool :=
  Str.is_lower c || Str.is_upper c || Str.is_digit c || Ascii.eqb c "_".

(** Letters and digits. *)
Definition alnum (c : ascii) : bool :=
  Str.is_lower c || Str.is_upper c || Str.is_digit c.

(** The pre-filters of [key_to_pv] other than the one on the suffix
    [rate]. *)
Definition prefilter (key : string) : string :=
  Str.replace "ETL" " ETL "
    (Str.replace "/" " per " (Str.replace "&raquo;" " to " key)).

(** The text keys of the entries of a dictionary, in order. *)
Definition str_keys (entries : list (pyval * pyval)) : list string :=
  flat_map (fun kv => match fst kv with PStr k => [k] | _ => [] end) entries.

(** A process-metrics item that [to_process_info] accepts: an object whose
    keys are texts and whose [label], if there is one, is a text. *)
Definition well_labelled (item : pyval) : bool :=
  match item with
  | PDict d =>
      forallb (fun kv => is_str (fst kv)) d
      && is_str (keyword d "label" (PStr "unknown"))
  | _ => false
  end.

(** The [data] of a process-metrics item, [None] when there is none. *)
Definition data_of (item : pyval) : pyval :=
  match item with
  | PDict d => keyword d "data" PNone
  | _ => PNone
  end.

(** ** Further definitions: the update loop *)

(** The attributes that the fields of a batch name, in order. *)
Definition targets (g : group) (fields : list field) : list string :=
  flat_map (fun item => match key_to_attr_map g !! f_name item with
                        | Some attr => [attr]
                        | None => []
                        end) fields.

(** The fields of the responses of an update, in order. *)
Definition fetched (rs : list response) : list field :=
  flat_map (fun r => match r with
                     | Fetched fields => fields
                     | Failed _ => []
                     end) rs.

(** The events that the loop over the fields of a batch can add. *)
Definition field_event (ev : event) : bool :=
  match ev with
  | Warning_new_entry _ | Exception_failed_update _ _ | Wrote _ _ _ => true
  | _ => false
  end.

(** The number of sleeps of a given length, and of logged failures of a
    sweep, in a stretch of the journal. *)
Definition slept_count (ms : Z) (evs : list event) : nat :=
  List.length (List.filter (fun ev => match ev with
                                      | Slept ms' => ms =? ms'
                                      | _ => false
                                      end) evs).

Definition failure_count (evs : list event) : nat :=
  List.length (List.filter (fun ev => match ev with
                                      | Exception_update_failed => true
                                      | _ => false
                                      end) evs).

(** What an update never changes in a group. *)
Definition shape (g : group)
  : nat * gmap string string * option (gmap string pyval) * gset string :=
  (gid g, key_to_attr_map g, init_document g, dom (props g)).

(** An update in which a first response brings a new value and a second
    one cannot be fetched. *)
Definition half_tick : tick :=
  {| responses := [Fetched [foo_field 2]; Failed TransportError];
     store_raises := None |}.

(** A batch is settled in a group when each of its known fields names an
    attribute that is there and that the comparison and the write would
    leave unwritten. *)
Definition settled (value_ne : pyval -> pyval -> option bool)
  (write : string -> pyval -> option pyval)
  (g : group) (fields : list field) : Prop :=
  forall item attr,
    In item fields -> key_to_attr_map g !! f_name item = Some attr ->
    exists current,
      props g !! attr = Some current
      /\ forall v, compare_and_write value_ne write attr current (f_value item)
                   <> Some (Some v).

(** What is written compares equal to the value it was written from. *)
Definition faithful_writes (value_ne : pyval -> pyval -> option bool)
  (write : string -> pyval -> option pyval) (fields : list field) : Prop :=
  forall item attr v,
    In item fields -> write attr (f_value item) = Some v ->
    value_ne v (f_value item) = Some false.

(** ** Further definitions: texts, labels and documentation strings *)

(** Text made of ASCII characters only.  [Inflection.camelize] puts a
    character in upper case with [Str.upper_char], which is [str.upper] on
    ASCII characters; a statement about the result of [camelize] on a text
    that does not come out of [Inflection.parameterize] is made for ASCII
    text. *)
Definition ascii_text (s : string) : bool :=
  all_chars (fun c => (N_of_ascii c <? 128)%N) s.

(** The documentation string of a field, when it has keyword arguments. *)
Definition f_doc (fld : field) : option string :=
  option_map doc (f_kwargs fld).

(** The [label] of a process-metrics item that [to_process_info] accepts:
    the default ["unknown"] when the item has none. *)
Definition label_of (item : pyval) : string :=
  match item with
  | PDict d =>
      match keyword d "label" (PStr "unknown") with
      | PStr s => s
      | _ => EmptyString
      end
  | _ => EmptyString
  end.

(** An update whose response has a field of unknown name, [Bar], between
    two fields of [Foo], and the same update without that field. *)
Definition unknown_tick : tick :=
  {| responses := [Fetched [foo_field 1; bar_field 7; foo_field 2]];
     store_raises := None |}.

Definition known_tick : tick :=
  {| responses := [Fetched [foo_field 1; foo_field 2]];
     store_raises := None |}.

(** * Properties *)

(** ** Strings *)

Lemma append_cons (c : ascii) (s t : string) :
  String c s +:+ t = String c (s +:+ t).
Proof. reflexivity. Qed.



(** [rsplit('(', 1)] cuts at the last separator. *)
Lemma rsplit1_none (sep : ascii) (b : string) :
  Str.contains (String sep "") b = false -> Str.rsplit1 sep b = None.
Proof.
  induction b as [|c b IH]; [reflexivity|].
  cbn [Str.contains String.prefix]. intros H.
  apply orb_false_iff in H as [H1 H2].
  cbn [Str.rsplit1]. rewrite (IH H2).
  destruct (ascii_dec sep c) as [<-|Hne].
  - destruct b; discriminate.
  - destruct (Ascii.eqb_spec c sep); [congruence | reflexivity].
Qed.

Lemma rsplit1_last (sep : ascii) (a b : string) :
  Str.contains (String sep "") b = false ->
  Str.rsplit1 sep (a +:+ String sep b) = Some (a, b).
Proof.
  intros Hb. induction a as [|c a IH];
    [change ("" +:+ String sep b) with (String sep b) | rewrite append_cons];
    cbn [Str.rsplit1].
  - rewrite (rsplit1_none _ _ Hb), Ascii.eqb_refl. reflexivity.
  - rewrite IH. reflexivity.
Qed.

(** ** [key_to_pv] *)

(** C9, as the claim states it, fails: the label with the guillemet gives an
    identifier without the segments [ETL] and [To]. *)
Lemma key_to_pv_guillemet_segments :
  key_to_pv label_guillemet = "AvgTimeSpentByGetEtlStreamsInEtl01SPerRun"
  /\ in_order ["ETL"; "To"; "PerRun"] (key_to_pv label_guillemet) = false
  /\ Str.contains "ETL" (key_to_pv label_guillemet) = false
  /\ Str.contains "To" (key_to_pv label_guillemet) = false.
Proof. repeat split; vm_compute; reflexivity. Qed.

(** C9, amended: for the label written with the HTML entity [&raquo;], as in
    the docstring of [key_to_pv], the identifier is
    [AvgTimeSpentByGetEtlStreamsInEtl0To1SPerRun]; it contains the segments
    [Etl], [To] and [PerRun] in that order, and no [ETL], since
    parametrization puts everything in lower case.  For the label written
    with the character U+00BB itself the identifier is
    [AvgTimeSpentByGetEtlStreamsInEtl01SPerRun], with [Etl] and [PerRun]. *)
Theorem key_to_pv_label_segments :
  key_to_pv label_entity = "AvgTimeSpentByGetEtlStreamsInEtl0To1SPerRun"
  /\ in_order ["Etl"; "To"; "PerRun"] (key_to_pv label_entity) = true
  /\ Str.contains "ETL" (key_to_pv label_entity) = false
  /\ key_to_pv label_guillemet = "AvgTimeSpentByGetEtlStreamsInEtl01SPerRun"
  /\ in_order ["Etl"; "PerRun"] (key_to_pv label_guillemet) = true.
Proof. repeat split; vm_compute; reflexivity. Qed.

(** ** The value coercer *)

Section Coercer.

Variable lit : string -> option pyval.

Lemma coerce_not_str (fuel : nat) (v : pyval) :
  is_str v = false -> archiver_literal_eval lit fuel v = Ok v.
Proof.
  destruct fuel; [reflexivity|].
  destruct v; simpl; intros H; try reflexivity; discriminate.
Qed.



(** The coerced value is never a tuple. *)
Lemma coerce_not_tuple (fuel : nat) (v r : pyval) :
  is_tuple v = false -> archiver_literal_eval lit fuel v = Ok r ->
  is_tuple r = false.
Proof.
  revert v. induction fuel as [|fuel IH]; intros v Hv H;
    [now injection H as <-|].
  destruct v; cbn [archiver_literal_eval] in H;
    try (injection H as <-; reflexivity); try discriminate.
  destruct (lit s) as [x|]; [|injection H as <-; reflexivity].
  destruct (is_tuple x) eqn:E.
  - eapply IH; [|exact H]. reflexivity.
  - now injection H as <-.
Qed.


End Coercer.




(** The round trip of section 8: ["160,732"] is the integer 160732. *)
Example coerce_thousands :
  archiver_literal_eval Literal.literal_eval 2 (PStr "160,732") = Ok (PInt 160732).
Proof. vm_compute. reflexivity. Qed.

(** A group of digits that starts with a zero is no integer literal: the
    parse fails and the text stays a string. *)
Example coerce_thousands_leading_zero :
  archiver_literal_eval Literal.literal_eval 2 (PStr "160,032") = Ok (PStr "160,032").
Proof. vm_compute. reflexivity. Qed.

(** ** The attribute specifications *)

Lemma hosted_record (v : pyval) :
  hosted v = true -> exists r, record_of_type (type_of v) = Ok r.
Proof. destruct v; simpl; intros H; try discriminate; eauto. Qed.

Lemma not_hosted_record (v : pyval) :
  hosted v = false -> record_of_type (type_of v) = Raise KeyError.
Proof. destruct v; simpl; intros H; try discriminate; reflexivity. Qed.

(** C10: once the value is coerced, building the keyword arguments raises
    exactly when the type of the coerced value is none of [bool], [int],
    [float] and [str], and what it raises is a [KeyError]; otherwise it
    gives the coerced value with its keyword arguments.  The texts ["None"]
    and ["[1, 2]"] and the JSON null are such values, and a transformer
    that meets one raises. *)
Theorem kwargs_raise_iff_not_hosted
  (lit : string -> option pyval) (fuel : nat) (key : string) (raw v : pyval) :
  archiver_literal_eval lit fuel raw = Ok v ->
  (_value_to_pvproperty_kwargs lit fuel key raw = Raise KeyError
     <-> hosted v = false)
  /\ (forall e, _value_to_pvproperty_kwargs lit fuel key raw = Raise e
        -> e = KeyError /\ hosted v = false)
  /\ (hosted v = true ->
        exists kw, _value_to_pvproperty_kwargs lit fuel key raw = Ok (v, kw)
                   /\ doc kw = key)
  /\ _value_to_pvproperty_kwargs Literal.literal_eval 2 key (PStr "None")
       = Raise KeyError
  /\ _value_to_pvproperty_kwargs Literal.literal_eval 2 key (PStr "[1, 2]")
       = Raise KeyError
  /\ _value_to_pvproperty_kwargs lit (S fuel) key PNone = Raise KeyError
  /\ instance_metrics_to_pvproperties Literal.literal_eval 2
       (PList [jobj [("instance", PStr "appliance0"); ("status", PStr "None")]])
       = Raise KeyError.
Proof.
  intros Hv.
  assert (Hraise : forall e,
    _value_to_pvproperty_kwargs lit fuel key raw = Raise e ->
    e = KeyError /\ hosted v = false).
  { intros e. unfold _value_to_pvproperty_kwargs. rewrite Hv. cbn [bind].
    destruct (hosted v) eqn:E.
    - destruct (hosted_record v E) as [r Hr]. rewrite Hr. discriminate.
    - rewrite (not_hosted_record v E). cbn [bind]. intros H.
      injection H as <-. now split. }
  split; [split|split; [exact Hraise|split; [|split; [|split; [|split]]]]].
  - intros H. now apply Hraise in H.
  - intros H. unfold _value_to_pvproperty_kwargs. rewrite Hv. cbn [bind].
    now rewrite (not_hosted_record v H).
  - intros H. unfold _value_to_pvproperty_kwargs. rewrite Hv. cbn [bind].
    destruct (hosted_record v H) as [r Hr]. rewrite Hr. cbn [bind].
    destruct (is_str v); eexists; split; reflexivity.
  - vm_compute. reflexivity.
  - vm_compute. reflexivity.
  - reflexivity.
  - vm_compute. reflexivity.
Qed.

Lemma kwargs_raise_iff_not_hosted_witness :
  archiver_literal_eval Literal.literal_eval 2 (PStr "None") = Ok PNone
  /\ hosted PNone = false
  /\ _value_to_pvproperty_kwargs Literal.literal_eval 2 "status" (PStr "None")
       = Raise KeyError.
Proof.
  assert (H : archiver_literal_eval Literal.literal_eval 2 (PStr "None") = Ok PNone)
    by (vm_compute; reflexivity).
  split; [exact H|]. split; [reflexivity|].
  destruct (kwargs_raise_iff_not_hosted Literal.literal_eval 2 "status"
              (PStr "None") PNone H) as [[_ Hback] _].
  apply Hback. reflexivity.
Defined.

(** ** Dictionaries *)

Lemma key_is_str_eq (k : pyval) (s : string) :
  key_is_str k s = true -> k = PStr s.
Proof.
  destruct k; simpl; try discriminate.
  intros H. apply String.eqb_eq in H. now subst.
Qed.

Lemma dict_find_set_same (d : list (pyval * pyval)) (k : string) (x : pyval) :
  dict_find (fun k' => key_is_str k' k) (dict_set d k x) = Ok x.
Proof.
  induction d as [|[k' v] d IH]; cbn [dict_set dict_find].
  - simpl. now rewrite String.eqb_refl.
  - destruct (key_is_str k' k) eqn:E; cbn [dict_find]; rewrite E; auto.
Qed.

Lemma dict_find_set_other (d : list (pyval * pyval)) (k k2 : string) (x : pyval) :
  k <> k2 ->
  dict_find (fun k' => key_is_str k' k2) (dict_set d k x)
  = dict_find (fun k' => key_is_str k' k2) d.
Proof.
  intros Hne. induction d as [|[k' v] d IH]; cbn [dict_set dict_find].
  - simpl. destruct (String.eqb_spec k k2); [contradiction | reflexivity].
  - destruct (key_is_str k' k) eqn:E; cbn [dict_find].
    + apply key_is_str_eq in E. subst k'. simpl.
      destruct (String.eqb_spec k k2); [contradiction | reflexivity].
    + destruct (key_is_str k' k2); [reflexivity | exact IH].
Qed.

(** ** Detailed metrics *)

Section Detailed.

Variable lit : string -> option pyval.
Variables (fuel : nat) (instance : string).
Variables (d : list (pyval * pyval)) (unitless tail : string) (raw v : pyval).

Hypothesis Hname :
  getitem_str (PDict d) "name" = Ok (PStr (unitless +:+ String "(" tail)).
Hypothesis Hprefix :
  Str.startswith estimated_prefix (unitless +:+ String "(" tail) = true.
Hypothesis Htail : Str.contains "(" tail = false.
Hypothesis Hvalue : getitem_str (PDict d) "value" = Ok raw.
Hypothesis Hcoerce : archiver_literal_eval lit fuel raw = Ok v.

(** The item that [load_and_filter] yields for an estimated-bytes item. *)
Lemma load_and_filter_estimated :
  load_and_filter lit fuel (PDict d) =
    let units := Str.rstrip ")" tail in
    let* value :=
      if truthy v then
        if String.eqb units "KB" then truediv_float v f1024
        else if String.eqb units "MB" then Ok v
        else if String.eqb units "GB" then mul_float v f1024
        else Ok v
      else Ok v in
    Ok (PDict (dict_set (dict_set d "name" (PStr (unitless +:+ "(MB)")))
                        "value" value)).
Proof.
  unfold load_and_filter. rewrite Hname. cbn [bind as_str].
  rewrite Hprefix, Hvalue. cbn [bind]. rewrite Hcoerce. cbn [bind].
  rewrite (rsplit1_last "(" unitless tail Htail). reflexivity.
Qed.

(** The field made of a yielded item whose value needs no second coercion. *)
Lemma detailed_field_of_item (n : string) (x : pyval) :
  load_and_filter lit fuel (PDict d)
    = Ok (PDict (dict_set (dict_set d "name" (PStr n)) "value" x)) ->
  archiver_literal_eval lit fuel x = Ok x ->
  (hosted x = true ->
     emits (detailed_metrics_to_pvproperties lit fuel instance (PList [PDict d]))
           (key_to_pv n) x n)
  /\ (hosted x = false ->
        detailed_metrics_to_pvproperties lit fuel instance (PList [PDict d])
        = Raise KeyError).
Proof.
  intros Hitem Hx.
  assert (Hn : getitem_str (PDict (dict_set (dict_set d "name" (PStr n)) "value" x))
                 "name" = Ok (PStr n)).
  { cbn [getitem_str]. rewrite dict_find_set_other by discriminate.
    apply dict_find_set_same. }
  assert (Hx' : getitem_str (PDict (dict_set (dict_set d "name" (PStr n)) "value" x))
                 "value" = Ok x).
  { cbn [getitem_str]. apply dict_find_set_same. }
  unfold detailed_metrics_to_pvproperties, emits.
  cbn [iterate bind for_each]. rewrite Hitem. cbn [bind].
  rewrite Hn. cbn [bind as_str]. rewrite Hx'. cbn [bind].
  unfold _value_to_pvproperty_kwargs. rewrite Hx. cbn [bind].
  split; intros Hh.
  - destruct (hosted_record x Hh) as [r Hr]. rewrite Hr. cbn [bind].
    destruct (is_str x); eexists; split; reflexivity.
  - now rewrite (not_hosted_record x Hh).
Qed.

End Detailed.

Lemma as_float_numeric (v : pyval) (f : spec_float) :
  as_float v = Ok f -> is_str v = false /\ hosted v = true.
Proof. destruct v; simpl; intros H; try discriminate; now split. Qed.

Lemma coerce_again (lit : string -> option pyval) (fuel : nat) (raw v x : pyval) :
  archiver_literal_eval lit fuel raw = Ok v -> is_str x = false ->
  archiver_literal_eval lit fuel x = Ok x.
Proof.
  intros _. apply coerce_not_str.
Qed.

(** C1: the claim fails on a value written with a thousands separator
    whose last group starts with a zero.  The coercer leaves ["160,032"] a
    string: the text is no literal, and a text that cannot be parsed gets no
    retry without its commas, although the coercer is there for such
    numbers.  The string is truthy, and dividing it by [1024.0] raises a
    [TypeError]: the transform gives no field at all, where the claim has
    the value 160032 / 1024 under the [(MB)] name.  With ["160,732"], whose
    groups are literals, the same item gives 160732 / 1024 under that
    name. *)
Theorem estimated_bytes_thousands_separator :
  archiver_literal_eval Literal.literal_eval 2 (PStr "160,032")
  = Ok (PStr "160,032")
  /\ truthy (PStr "160,032") = true
  /\ load_and_filter Literal.literal_eval 2
       (jobj [("name", PStr estimated_kb); ("value", PStr "160,032")])
     = Raise TypeError
  /\ detailed_metrics_to_pvproperties Literal.literal_eval 2 "appliance0"
       (PList [jobj [("name", PStr estimated_kb); ("value", PStr "160,032")]])
     = Raise TypeError
  /\ detailed_metrics_to_pvproperties Literal.literal_eval 2 "appliance0"
       (PList [jobj [("name", PStr estimated_kb); ("value", PStr "160,732")]])
     = Ok [{| f_name := "EstimatedBytesTransferredInEtl01Mb";
              f_value := PFloat (SFdiv prec64 emax64 (float64_of_Z 160732) f1024);
              f_kwargs := Some {| doc := "Estimated bytes transferred in ETL(0"
                                         +:+ guillemet +:+ "1)(MB)";
                                  record := ai;
                                  report_as_string := None;
                                  max_length := None |} |}].
Proof. repeat split; vm_compute; reflexivity. Qed.

(** The examples of section 8: ["2048"] in [KB] is [2.0], ["2"] in [GB] is
    [2048.0], ["5"] in [MB] is the integer [5]. *)
Example estimated_bytes_examples :
  List.map
    (fun '(units, text) =>
       detailed_metrics_to_pvproperties Literal.literal_eval 2 "appliance0"
         (PList [jobj [("name", PStr ("Estimated bytes transferred in ETL(0"
                                      +:+ guillemet +:+ "1)(" +:+ units +:+ ")"));
                       ("value", PStr text)]]))
    [("KB", "2048"); ("GB", "2"); ("MB", "5")]
  = List.map
      (fun '(value, rec) =>
         Ok [{| f_name := "EstimatedBytesTransferredInEtl01Mb";
                f_value := value;
                f_kwargs := Some {| doc := "Estimated bytes transferred in ETL(0"
                                           +:+ guillemet +:+ "1)(MB)";
                                    record := rec;
                                    report_as_string := None;
                                    max_length := None |} |}])
      [(PFloat (float64_of_Z 2), ai); (PFloat (float64_of_Z 2048), ai);
       (PInt 5, longin)].
Proof. vm_compute. reflexivity. Qed.

(** C8: for an estimated-bytes item whose coerced value is falsy, the item
    that [load_and_filter] yields has the coerced value, unconverted, and
    the name with [(MB)] in place of the unit suffix, whatever the unit.
    The field made of it has that value and the identifier of that name
    when the value can be hosted (the empty text is not a literal); a falsy
    value of another type, such as [None], makes the transform raise a
    [KeyError]. *)
Theorem estimated_bytes_falsy
  (lit : string -> option pyval) (fuel : nat) (instance : string)
  (d : list (pyval * pyval)) (unitless units : string) (raw v : pyval) :
  getitem_str (PDict d) "name" = Ok (PStr (unitless +:+ "(" +:+ units)) ->
  Str.startswith estimated_prefix (unitless +:+ "(" +:+ units) = true ->
  Str.contains "(" units = false ->
  getitem_str (PDict d) "value" = Ok raw ->
  archiver_literal_eval lit fuel raw = Ok v ->
  truthy v = false ->
  load_and_filter lit fuel (PDict d)
    = Ok (PDict (dict_set (dict_set d "name" (PStr (unitless +:+ "(MB)")))
                          "value" v))
  /\ (lit "" = None -> hosted v = true ->
        emits (detailed_metrics_to_pvproperties lit fuel instance (PList [PDict d]))
              (key_to_pv (unitless +:+ "(MB)")) v (unitless +:+ "(MB)"))
  /\ (hosted v = false ->
        detailed_metrics_to_pvproperties lit fuel instance (PList [PDict d])
        = Raise KeyError).
Proof.
  intros Hname Hprefix Hunits Hvalue Hcoerce Hfalsy.
  assert (Hitem := load_and_filter_estimated lit fuel d unitless units raw v
                     Hname Hprefix Hunits Hvalue Hcoerce).
  cbn zeta in Hitem. rewrite Hfalsy in Hitem. cbn [bind] in Hitem.
  split; [exact Hitem|].
  split.
  - intros Hempty Hhosted.
    eapply (detailed_field_of_item lit fuel instance d); [exact Hitem| |exact Hhosted].
    destruct fuel as [|n]; [reflexivity|].
    destruct v; try reflexivity.
    simpl in Hfalsy. apply negb_false_iff, String.eqb_eq in Hfalsy. subst s.
    cbn [archiver_literal_eval]. now rewrite Hempty.
  - intros Hhosted.
    eapply (detailed_field_of_item lit fuel instance d); [exact Hitem| |exact Hhosted].
    apply coerce_not_str. destruct v; try reflexivity. discriminate.
Qed.

Lemma estimated_bytes_falsy_witness :
  truthy (PInt 0) = false
  /\ load_and_filter Literal.literal_eval 2
       (PDict [(PStr "name", PStr estimated_kb); (PStr "value", PStr "0")])
     = Ok (PDict [(PStr "name",
                   PStr ("Estimated bytes transferred in ETL(0" +:+ guillemet
                         +:+ "1)(MB)"));
                  (PStr "value", PInt 0)]).
Proof.
  split; [reflexivity|].
  apply (estimated_bytes_falsy Literal.literal_eval 2 "appliance0"
           [(PStr "name", PStr estimated_kb); (PStr "value", PStr "0")]
           ("Estimated bytes transferred in ETL(0" +:+ guillemet +:+ "1)")
           "KB)" (PStr "0") (PInt 0)).
  - vm_compute. reflexivity.
  - vm_compute. reflexivity.
  - reflexivity.
  - reflexivity.
  - vm_compute. reflexivity.
  - reflexivity.
Defined.

(** A zero in [KB] keeps its value and gets the [(MB)] name; a [None] makes
    the transform raise. *)
Example estimated_bytes_zero_and_none :
  detailed_metrics_to_pvproperties Literal.literal_eval 2 "appliance0"
    (PList [jobj [("name", PStr estimated_kb); ("value", PStr "0")]])
  = Ok [{| f_name := "EstimatedBytesTransferredInEtl01Mb";
           f_value := PInt 0;
           f_kwargs := Some {| doc := "Estimated bytes transferred in ETL(0"
                                      +:+ guillemet +:+ "1)(MB)";
                               record := longin;
                               report_as_string := None;
                               max_length := None |} |}]
  /\ detailed_metrics_to_pvproperties Literal.literal_eval 2 "appliance0"
       (PList [jobj [("name", PStr estimated_kb); ("value", PStr "None")]])
     = Raise KeyError.
Proof. split; vm_compute; reflexivity. Qed.

(** ** Instance metrics *)

(** C6: the instance transformer has no filter on the key [instance]: for
    the payload [[{"instance": "appliance0", "status": "Working"}]] it
    emits a field [appliance0:Instance] for the discriminator itself,
    before the field of the other key.  The storage transformer, on a
    payload of the same shape, leaves its discriminator [name] out. *)
Theorem instance_key_is_emitted :
  instance_metrics_to_pvproperties Literal.literal_eval 2
    (PList [jobj [("instance", PStr "appliance0"); ("status", PStr "Working")]])
  = Ok [{| f_name := "appliance0:Instance";
           f_value := PStr "appliance0";
           f_kwargs := Some {| doc := "instance"; record := stringin;
                               report_as_string := Some true;
                               max_length := Some 2000 |} |};
        {| f_name := "appliance0:Status";
           f_value := PStr "Working";
           f_kwargs := Some {| doc := "status"; record := stringin;
                               report_as_string := Some true;
                               max_length := Some 2000 |} |}]
  /\ storage_metrics_to_pvproperties Literal.literal_eval 2
       (PList [jobj [("name", PStr "STS"); ("status", PStr "Working")]])
     = Ok [{| f_name := "STS:Status";
              f_value := PStr "Working";
              f_kwargs := Some {| doc := "status"; record := stringin;
                                  report_as_string := Some true;
                                  max_length := Some 2000 |} |}].
Proof. split; vm_compute; reflexivity. Qed.

(** Every key of an object gives a field, the discriminator included: the
    number of fields of a one-object payload is the number of its keys. *)
Lemma instance_fields_per_key (lit : string -> option pyval) (fuel : nat)
  (entries : list (pyval * pyval)) (fields : list field) :
  instance_metrics_to_pvproperties lit fuel (PList [PDict entries]) = Ok fields ->
  List.length fields = List.length entries.
Proof.
  unfold instance_metrics_to_pvproperties.
  cbn [iterate bind for_each items].
  generalize (PDict entries) at 1 as whole. intros whole.
  revert fields. induction entries as [|[k x] entries IH]; intros fields.
  - cbn. intros H. now injection H as <-.
  - cbn [for_each].
    destruct (to_instance_pv whole k) as [n|?]; cbn [bind]; try discriminate.
    destruct (as_str k) as [dk|?]; cbn [bind]; try discriminate.
    destruct (_value_to_pvproperty_kwargs lit fuel dk x) as [sp|?];
      cbn [bind]; try discriminate.
    destruct (for_each _ entries) as [rest|?] eqn:E; cbn [bind] in *;
      try discriminate.
    intros H. injection H as <-.
    rewrite List.app_nil_r. cbn [app List.length]. f_equal.
    specialize (IH (rest ++ [])). rewrite List.app_nil_r in IH.
    now apply IH.
Qed.

(** ** Process metrics *)

Lemma index_list_last {A} (xs : list A) (a : A) :
  index_list (xs ++ [a]) (-1) = Ok a.
Proof.
  unfold index_list. rewrite List.length_app. cbn [List.length].
  change (-1 <? 0) with true. cbv iota.
  replace (-1 + Z.of_nat (List.length xs + 1)) with (Z.of_nat (List.length xs))
    by lia.
  destruct (Z.leb_spec 0 (Z.of_nat (List.length xs))); [|lia].
  destruct (Z.ltb_spec (Z.of_nat (List.length xs))
                       (Z.of_nat (List.length xs + 1))); [|lia].
  cbn [andb]. rewrite Nat2Z.id, List.nth_error_app2, Nat.sub_diag by lia.
  reflexivity.
Qed.

Lemma index_list_second {A} (a b : A) (more : list A) :
  index_list (a :: b :: more) 1 = Ok b.
Proof.
  unfold index_list. cbn [List.length].
  change (1 <? 0) with false. cbv iota.
  destruct (Z.ltb_spec 1 (Z.of_nat (S (S (List.length more))))); [|lia].
  reflexivity.
Qed.

(** The fields of a payload of well-formed items. *)
Lemma process_fields_of_items (items : list pyval) :
  forallb well_labelled items = true ->
  process_metrics_to_pvproperties (PList items)
  = Ok (List.map
          (fun i => {| f_name := Inflection.camelize
                                   (Str.split1_head " " (label_of i));
                       f_value := get_value (data_of i);
                       f_kwargs := None |}) items).
Proof.
  unfold process_metrics_to_pvproperties. cbn [iterate bind].
  induction items as [|item items IH]; intros H; [reflexivity|].
  cbn [forallb] in H. apply andb_true_iff in H as [Hi Hs].
  cbn [for_each]. rewrite (IH Hs).
  destruct item; try discriminate.
  cbn [well_labelled] in Hi. apply andb_true_iff in Hi as [Hkeys Hlabel].
  unfold to_process_info. rewrite Hkeys. cbn [List.map label_of data_of].
  destruct (keyword l "label" (PStr "unknown")); try discriminate.
  reflexivity.
Qed.

(** C7: on a payload whose items are objects with text keys and a text
    [label], if any, the process transformer does not raise: it gives one
    field per item, in order.  The value of a field is [get_value] of the
    item's [data]: the second component of the last element of [data] when
    [data] is a list that ends with such a pair, the integer [0] when
    [data] is falsy (empty, or absent), and the float [0.0] when [data] is
    truthy and cannot be indexed that way.  The name of a field is the
    camelized part of the label before its first space (stated for parts
    that are ASCII text).  For the payload of section 8 the fields are
    [Foo] with the value [20] and [X] with the integer [0]. *)
Theorem process_value_is_last_sample (items : list pyval) :
  forallb well_labelled items = true ->
  (exists fields,
     process_metrics_to_pvproperties (PList items) = Ok fields
     /\ List.map f_value fields = List.map (fun i => get_value (data_of i)) items
     /\ (forallb (fun i => ascii_text (Str.split1_head " " (label_of i))) items
           = true ->
         List.map f_name fields
         = List.map (fun i => Inflection.camelize
                                (Str.split1_head " " (label_of i))) items))
  /\ (forall xs ts x more,
        get_value (PList (xs ++ [PList (ts :: x :: more)])) = x)
  /\ (forall data, truthy data = false -> get_value data = PInt 0)
  /\ (forall data, truthy data = true ->
        (forall x, (let* last := getitem_int data (-1) in getitem_int last 1)
                   <> Ok x) ->
        get_value data = PFloat f0)
  /\ process_metrics_to_pvproperties
       (PList [jobj [("label", PStr "Foo Bar");
                     ("data", PList [PList [PInt 1; PInt 10];
                                     PList [PInt 2; PInt 20]])];
               jobj [("label", PStr "X"); ("data", PList [])]])
     = Ok [{| f_name := "Foo"; f_value := PInt 20; f_kwargs := None |};
           {| f_name := "X"; f_value := PInt 0; f_kwargs := None |}].
Proof.
  intros Hitems. split; [|split; [|split; [|split]]].
  - eexists. split; [exact (process_fields_of_items items Hitems)|].
    rewrite !List.map_map. cbn [f_value f_name]. split; [reflexivity|].
    intros _. reflexivity.
  - intros xs ts x more. unfold get_value.
    assert (Ht : truthy (PList (xs ++ [PList (ts :: x :: more)])) = true)
      by (destruct xs; reflexivity).
    rewrite Ht. cbn [negb getitem_int].
    rewrite index_list_last. cbn [bind getitem_int].
    now rewrite index_list_second.
  - intros data Hf. unfold get_value. now rewrite Hf.
  - intros data Ht Hfail. unfold get_value. rewrite Ht. cbn [negb].
    destruct (let* last := getitem_int data (-1) in getitem_int last 1)
      as [x|?]; try reflexivity.
    exfalso. exact (Hfail x eq_refl).
  - vm_compute. reflexivity.
Qed.

Lemma process_value_is_last_sample_witness :
  exists fields,
    process_metrics_to_pvproperties
      (PList [jobj [("label", PStr "Foo Bar");
                    ("data", PList [PList [PInt 1; PInt 10];
                                    PList [PInt 2; PInt 20]])];
              jobj [("label", PStr "X")]])
    = Ok fields
    /\ List.map f_value fields = [PInt 20; PInt 0]
    /\ List.map f_name fields = ["Foo"; "X"].
Proof.
  destruct (process_value_is_last_sample
              [jobj [("label", PStr "Foo Bar");
                     ("data", PList [PList [PInt 1; PInt 10];
                                     PList [PInt 2; PInt 20]])];
               jobj [("label", PStr "X")]] eq_refl)
    as ((fields & Hfields & Hvalues & Hnames) & Hlast & Hfalsy & _).
  exists fields. split; [exact Hfields|]. split.
  - rewrite Hvalues. cbn [List.map].
    change (data_of (jobj [("label", PStr "X")])) with PNone.
    change (data_of (jobj [("label", PStr "Foo Bar");
                           ("data", PList [PList [PInt 1; PInt 10];
                                           PList [PInt 2; PInt 20]])]))
      with (PList ([PList [PInt 1; PInt 10]] ++ [PList [PInt 2; PInt 20]])).
    rewrite Hlast, (Hfalsy PNone eq_refl). reflexivity.
  - rewrite (Hnames eq_refl). reflexivity.
Defined.

(** The examples of section 8, and an element of [data] that is too short. *)
Example process_metrics_examples :
  process_metrics_to_pvproperties
    (PList [jobj [("label", PStr "Foo Bar");
                  ("data", PList [PList [PInt 1; PInt 10];
                                  PList [PInt 2; PInt 20]])];
            jobj [("label", PStr "X"); ("data", PList [])];
            jobj [("label", PStr "Y"); ("data", PList [PList [PInt 1]])]])
  = Ok [{| f_name := "Foo"; f_value := PInt 20; f_kwargs := None |};
        {| f_name := "X"; f_value := PInt 0; f_kwargs := None |};
        {| f_name := "Y"; f_value := PFloat f0; f_kwargs := None |}].
Proof. vm_compute. reflexivity. Qed.

(** ** The group update loop *)

Lemma stored_count_app (n : nat) (a b : list event) :
  stored_count n (a ++ b) = (stored_count n a + stored_count n b)%nat.
Proof. unfold stored_count. now rewrite List.filter_app, List.length_app. Qed.

Lemma wrote_app (n : nat) (a b : list event) :
  wrote n (a ++ b) = wrote n a || wrote n b.
Proof. unfold wrote. apply List.existsb_app. Qed.

Section SyncProperties.

Variable value_ne : pyval -> pyval -> option bool.
Variable write : string -> pyval -> option pyval.

(** What the loop over the fields keeps and what it adds. *)
Lemma update_items_spec (fields : list field) :
  forall g j c g' j' c' err,
  update_items value_ne write g j c fields = (g', j', c', err) ->
  gid g' = gid g
  /\ key_to_attr_map g' = key_to_attr_map g
  /\ init_document g' = init_document g
  /\ dom (props g') = dom (props g)
  /\ exists evs, j' = j ++ evs
       /\ c' = c || wrote (gid g) evs
       /\ forall n, stored_count n evs = 0%nat.
Proof.
  induction fields as [|item rest IH]; intros g j c g' j' c' err H.
  - injection H as <- <- <- <-. repeat split; try reflexivity.
    exists []. rewrite List.app_nil_r, orb_false_r. auto.
  - cbn [update_items] in H.
    destruct (key_to_attr_map g !! f_name item) as [attr|] eqn:Ek.
    + destruct (props g !! attr) as [current|] eqn:Ep.
      * destruct (compare_and_write value_ne write attr current (f_value item))
          as [[v|]|].
        -- apply IH in H. cbn [set_prop gid key_to_attr_map init_document props] in H.
           destruct H as (Hg & Hk & Hi & Hd & evs & -> & -> & Hs).
           repeat split; try assumption.
           ++ rewrite Hd, dom_insert_L.
              apply subseteq_union_1_L, singleton_subseteq_l.
              exact (elem_of_dom_2 _ _ _ Ep).
           ++ exists (Wrote (gid g) attr v :: evs).
              rewrite <- List.app_assoc. cbn [app]. split; [reflexivity|].
              split.
              ** cbn [wrote existsb]. rewrite Nat.eqb_refl.
                 now rewrite orb_true_r.
              ** intros n. exact (Hs n).
        -- apply IH in H. exact H.
        -- apply IH in H.
           destruct H as (Hg & Hk & Hi & Hd & evs & -> & -> & Hs).
           repeat split; try assumption.
           exists (Exception_failed_update attr item :: evs).
           rewrite <- List.app_assoc. cbn [app]. split; [reflexivity|].
           split; [reflexivity | exact Hs].
      * injection H as <- <- <- <-. repeat split; try reflexivity.
        exists []. rewrite List.app_nil_r, orb_false_r. auto.
    + apply IH in H.
      destruct H as (Hg & Hk & Hi & Hd & evs & -> & -> & Hs).
      repeat split; try assumption.
      exists (Warning_new_entry item :: evs).
      rewrite <- List.app_assoc. cbn [app]. split; [reflexivity|].
      split; [reflexivity | exact Hs].
Qed.

Lemma update_requests_spec (rs : list response) :
  forall g j c g' j' c' err,
  update_requests value_ne write g j c rs = (g', j', c', err) ->
  gid g' = gid g
  /\ key_to_attr_map g' = key_to_attr_map g
  /\ init_document g' = init_document g
  /\ dom (props g') = dom (props g)
  /\ exists evs, j' = j ++ evs
       /\ c' = c || wrote (gid g) evs
       /\ forall n, stored_count n evs = 0%nat.
Proof.
  induction rs as [|r rest IH]; intros g j c g' j' c' err H.
  - injection H as <- <- <- <-. repeat split; try reflexivity.
    exists []. rewrite List.app_nil_r, orb_false_r. auto.
  - cbn [update_requests] in H. destruct r as [fields|e].
    + destruct (update_items value_ne write g j c fields)
        as [[[g1 j1] c1] [e1|]] eqn:E1.
      * injection H as <- <- <- <-. exact (update_items_spec _ _ _ _ _ _ _ _ E1).
      * apply update_items_spec in E1.
        destruct E1 as (Hg & Hk & Hi & Hd & evs1 & -> & -> & Hs1).
        apply IH in H.
        destruct H as (Hg' & Hk' & Hi' & Hd' & evs2 & -> & -> & Hs2).
        repeat split; try congruence.
        exists (evs1 ++ evs2). rewrite List.app_assoc. split; [reflexivity|].
        split.
        -- rewrite wrote_app, Hg, orb_assoc. reflexivity.
        -- intros n. now rewrite stored_count_app, Hs1, Hs2.
    + injection H as <- <- <- <-. repeat split; try reflexivity.
      exists []. rewrite List.app_nil_r, orb_false_r. auto.
Qed.


(** An update of a group leaves the document counts of the other groups
    as they are. *)
Lemma update_group_frame (self : archstats) (g : group) (t : tick)
  (self' : archstats) (g' : group) (r : option exn) (k : nat) :
  _update_group value_ne write self g t = (self', g', r) ->
  k <> gid g ->
  _document_count self' !! k = _document_count self !! k.
Proof.
  unfold _update_group. intros H Hk.
  destruct (update_requests value_ne write g (journal self) false (responses t))
    as [[[g1 j1] c1] err] eqn:E.
  apply update_requests_spec in E. destruct E as (Hg & _).
  destruct err as [e|]; [now injection H as <- _ _|].
  cbn [set_journal _document_count] in H.
  destruct (_document_count self !! gid g1) as [n|]; [|now injection H as <- _ _].
  destruct (c1 || (Nat.eqb n 0 && is_none (init_document g1)));
    [|now injection H as <- _ _].
  destruct (store_raises t) as [e|]; [now injection H as <- _ _|].
  injection H as <- _ _. cbn [set_count _document_count].
  apply lookup_insert_ne. congruence.
Qed.


End SyncProperties.



(** The gating examples of section 8: a first update without a change
    stores one snapshot when there is no initial document and none when
    there is one. *)
Example first_update_gating :
  journal (_update_group int_ne accept (example_ioc [example_group 0 None])
             (example_group 0 None) quiet_tick).1.1
  = [Stored 0]
  /\ journal (_update_group int_ne accept (example_ioc [example_group 0 (Some ∅)])
                (example_group 0 (Some ∅)) quiet_tick).1.1
     = [].
Proof. split; vm_compute; reflexivity. Qed.

Section Batches.

Variable value_ne : pyval -> pyval -> option bool.
Variable write : string -> pyval -> option pyval.

(** The loop over the fields of a batch, cut in two. *)
Lemma update_items_app (pre post : list field) :
  forall g j c,
  update_items value_ne write g j c (pre ++ post) =
    match update_items value_ne write g j c pre with
    | (g1, j1, c1, None) => update_items value_ne write g1 j1 c1 post
    | stopped => stopped
    end.
Proof.
  induction pre as [|item pre IH]; intros g j c; [reflexivity|].
  cbn [app update_items].
  destruct (key_to_attr_map g !! f_name item) as [attr|]; [|apply IH].
  destruct (props g !! attr) as [current|]; [|reflexivity].
  destruct (compare_and_write value_ne write attr current (f_value item))
    as [[v|]|]; apply IH.
Qed.

(** The loop over the requests of an update, cut in two. *)
Lemma update_requests_app (rs1 rs2 : list response) :
  forall g j c,
  update_requests value_ne write g j c (rs1 ++ rs2) =
    match update_requests value_ne write g j c rs1 with
    | (g1, j1, c1, None) => update_requests value_ne write g1 j1 c1 rs2
    | stopped => stopped
    end.
Proof.
  induction rs1 as [|r rs1 IH]; intros g j c; [reflexivity|].
  cbn [app update_requests]. destruct r as [fields|e]; [|reflexivity].
  destruct (update_items value_ne write g j c fields) as [[[g1 j1] c1] [e|]];
    [reflexivity | apply IH].
Qed.

(** The loops only add to the journal: what they do does not depend on what
    the journal holds. *)
Lemma update_items_journal (fields : list field) :
  forall g j k c,
  update_items value_ne write g (j ++ k) c fields =
    match update_items value_ne write g k c fields with
    | (g', k', c', err) => (g', j ++ k', c', err)
    end.
Proof.
  induction fields as [|item rest IH]; intros g j k c; [reflexivity|].
  cbn [update_items].
  destruct (key_to_attr_map g !! f_name item) as [attr|].
  - destruct (props g !! attr) as [current|]; [|reflexivity].
    destruct (compare_and_write value_ne write attr current (f_value item))
      as [[v|]|]; [| apply IH |]; rewrite <- List.app_assoc; apply IH.
  - rewrite <- List.app_assoc. apply IH.
Qed.

Lemma update_requests_journal (rs : list response) :
  forall g j k c,
  update_requests value_ne write g (j ++ k) c rs =
    match update_requests value_ne write g k c rs with
    | (g', k', c', err) => (g', j ++ k', c', err)
    end.
Proof.
  induction rs as [|r rs IH]; intros g j k c; [reflexivity|].
  cbn [update_requests]. destruct r as [fields|e]; [|reflexivity].
  rewrite update_items_journal.
  destruct (update_items value_ne write g k c fields) as [[[g1 k1] c1] [e|]];
    [reflexivity | apply IH].
Qed.

Lemma update_requests_from_nil (rs : list response) (g : group)
  (j : list event) (c : bool) :
  update_requests value_ne write g j c rs =
    match update_requests value_ne write g [] c rs with
    | (g', k', c', err) => (g', j ++ k', c', err)
    end.
Proof.
  rewrite <- (List.app_nil_r j) at 1. apply update_requests_journal.
Qed.

(** A field of unknown name in a response: when what comes before it is
    processed without an exception, the loops log the warning and go on
    with what comes after it, from the same group and the same flag. *)
Lemma update_requests_unknown
  (rs1 rs2 : list response) (pre post : list field) (item : field) :
  forall g j c g1 j1 c1,
  key_to_attr_map g !! f_name item = None ->
  update_requests value_ne write g j c (rs1 ++ [Fetched pre]) = (g1, j1, c1, None) ->
  update_requests value_ne write g j c (rs1 ++ Fetched (pre ++ item :: post) :: rs2)
  = update_requests value_ne write g1 (j1 ++ [Warning_new_entry item]) c1
      (Fetched post :: rs2)
  /\ update_requests value_ne write g j c (rs1 ++ Fetched (pre ++ post) :: rs2)
     = update_requests value_ne write g1 j1 c1 (Fetched post :: rs2)
  /\ key_to_attr_map g1 = key_to_attr_map g
  /\ dom (props g1) = dom (props g).
Proof.
  intros g j c g1 j1 c1 Hunknown Hpre.
  destruct (update_requests_spec _ _ _ _ _ _ _ _ _ _ Hpre) as (_ & Hk & _ & Hd & _).
  rewrite update_requests_app in Hpre. rewrite !update_requests_app.
  destruct (update_requests value_ne write g j c rs1) as [[[g0 j0] c0] [e|]];
    [discriminate|].
  cbn [update_requests] in Hpre |- *. rewrite !update_items_app.
  destruct (update_items value_ne write g0 j0 c0 pre) as [[[g' j'] c'] [e|]];
    [discriminate|].
  injection Hpre as -> -> ->.
  cbn [update_items]. rewrite Hk, Hunknown. repeat split; assumption.
Qed.

(** The loop over the groups of a sweep, cut in two. *)
Lemma update_groups_app (pre rest : list group) (env : nat -> tick) :
  forall self,
  update_groups value_ne write self (pre ++ rest) env =
    match update_groups value_ne write self pre env with
    | (pre', self1, None) =>
        match update_groups value_ne write self1 rest env with
        | (rest', self2, err) => (pre' ++ rest', self2, err)
        end
    | (pre', self1, Some e) => (pre' ++ rest, self1, Some e)
    end.
Proof.
  induction pre as [|g pre IH]; intros self.
  - cbn [app update_groups].
    now destruct (update_groups value_ne write self rest env) as [[? ?] ?].
  - cbn [app update_groups].
    destruct (_update_group value_ne write self g (env (gid g)))
      as [[self' g'] [e|]]; [reflexivity|].
    rewrite IH.
    destruct (update_groups value_ne write (log self' [Slept 100]) pre env)
      as [[pre' self1] [e|]]; [reflexivity|].
    now destruct (update_groups value_ne write self1 rest env) as [[? ?] ?].
Qed.

End Batches.

(** C4: take an update of a group in which a response has a field whose
    name is not in [key_to_attr_map], and in which what comes before that
    field is processed without an exception.  The update is the update
    without that field, with the warning added to the journal at the point
    where the field was met: the group that results, the exception or
    normal end of the update and the document counts are the same, and the
    two journals differ by that one warning, so that the fields and the
    responses after the field are processed, and the snapshot is stored, as
    if the field had not been there.  The update adds no name to
    [key_to_attr_map] and no attribute to the group. *)
Theorem unknown_field_is_skipped
  (value_ne : pyval -> pyval -> option bool)
  (write : string -> pyval -> option pyval)
  (self : archstats) (g : group) (t : tick)
  (rs1 rs2 : list response) (pre post : list field) (item : field)
  (g1 : group) (j1 : list event) (c1 : bool) :
  key_to_attr_map g !! f_name item = None ->
  responses t = rs1 ++ Fetched (pre ++ item :: post) :: rs2 ->
  update_requests value_ne write g (journal self) false (rs1 ++ [Fetched pre])
    = (g1, j1, c1, None) ->
  let skipping := {| responses := rs1 ++ Fetched (pre ++ post) :: rs2;
                     store_raises := store_raises t |} in
  let with_item := _update_group value_ne write self g t in
  let without := _update_group value_ne write self g skipping in
  (exists evs,
     journal with_item.1.1 = j1 ++ Warning_new_entry item :: evs
     /\ journal without.1.1 = j1 ++ evs)
  /\ with_item.1.2 = without.1.2
  /\ with_item.2 = without.2
  /\ _document_count with_item.1.1 = _document_count without.1.1
  /\ key_to_attr_map with_item.1.2 = key_to_attr_map g
  /\ dom (props with_item.1.2) = dom (props g).
Proof.
  intros Hunknown Hresp Hpre skipping with_item without.
  subst skipping with_item without. unfold _update_group.
  cbn [responses store_raises]. rewrite Hresp.
  destruct (update_requests_unknown value_ne write rs1 rs2 pre post item
              _ _ _ _ _ _ Hunknown Hpre) as (-> & -> & Hk1 & Hd1).
  rewrite (update_requests_from_nil value_ne write _ g1
             (j1 ++ [Warning_new_entry item]) c1).
  rewrite (update_requests_from_nil value_ne write _ g1 j1 c1).
  destruct (update_requests value_ne write g1 [] c1 (Fetched post :: rs2))
    as [[[g3 evs] c3] err] eqn:E.
  destruct (update_requests_spec _ _ _ _ _ _ _ _ _ _ E) as (_ & Hk3 & _ & Hd3 & _).
  assert (Hk : key_to_attr_map g3 = key_to_attr_map g) by congruence.
  assert (Hd : dom (props g3) = dom (props g)) by congruence.
  destruct err as [e|].
  { cbn. split; [exists evs; now rewrite <- List.app_assoc|]. now repeat split. }
  cbn [set_journal _document_count].
  destruct (_document_count self !! gid g3) as [count|].
  2:{ cbn. split; [exists evs; now rewrite <- List.app_assoc|]. now repeat split. }
  destruct (c3 || Nat.eqb count 0 && is_none (init_document g3)).
  2:{ cbn. split; [exists evs; now rewrite <- List.app_assoc|]. now repeat split. }
  destruct (store_raises t) as [e|].
  { cbn. split; [exists evs; now rewrite <- List.app_assoc|]. now repeat split. }
  cbn. split; [|now repeat split].
  exists (evs ++ [Stored (gid g3)]).
  now rewrite <- !List.app_assoc.
Qed.

Lemma unknown_field_is_skipped_witness :
  key_to_attr_map (example_group 0 None) !! "Bar" = None
  /\ journal (_update_group int_ne accept (example_ioc [example_group 0 None])
                (example_group 0 None) known_tick).1.1
     = [Wrote 0 "foo" (PInt 2); Stored 0]
  /\ journal (_update_group int_ne accept (example_ioc [example_group 0 None])
                (example_group 0 None) unknown_tick).1.1
     = [Warning_new_entry (bar_field 7); Wrote 0 "foo" (PInt 2); Stored 0].
Proof.
  split; [reflexivity|].
  assert (Hknown :
    journal (_update_group int_ne accept (example_ioc [example_group 0 None])
               (example_group 0 None) known_tick).1.1
    = [Wrote 0 "foo" (PInt 2); Stored 0]) by (vm_compute; reflexivity).
  split; [exact Hknown|].
  destruct (unknown_field_is_skipped int_ne accept
              (example_ioc [example_group 0 None]) (example_group 0 None)
              unknown_tick [] [] [foo_field 1] [foo_field 2] (bar_field 7)
              (example_group 0 None) [] false eq_refl eq_refl eq_refl)
    as [(evs & Hwith & Hwithout) _].
  change {| responses := [] ++ [Fetched ([foo_field 1] ++ [foo_field 2])];
            store_raises := store_raises unknown_tick |}
    with known_tick in Hwithout.
  rewrite Hknown in Hwithout. cbn [app] in Hwithout, Hwith.
  rewrite Hwith, <- Hwithout. reflexivity.
Defined.

(** The update of the example above, in full: the warning, the write of
    the field that comes after, the snapshot; no exception, and the group
    has its one attribute. *)
Example unknown_field_update :
  _update_group int_ne accept (example_ioc [example_group 0 None])
    (example_group 0 None) unknown_tick
  = ({| _dynamic_groups := [example_group 0 None];
        _document_count := <[ 0%nat := 1%nat ]> {[ 0%nat := 0%nat ]};
        journal := [Warning_new_entry (bar_field 7); Wrote 0 "foo" (PInt 2);
                    Stored 0] |},
     set_prop (example_group 0 None) "foo" (PInt 2), None).
Proof. vm_compute. reflexivity. Qed.

(** C5, as the claim states it, fails: the [try] of [updater] is around the
    whole loop over the groups.  When the fetch of group 0 fails, group 1,
    which comes after it and has a new value to take, is not updated in
    that sweep; updated on its own it would be written and stored. *)
Lemma failure_skips_later_groups :
  _dynamic_groups
    (sweep int_ne accept
       (example_ioc [example_group 0 None; example_group 1 None]) first_fails)
  = [example_group 0 None; example_group 1 None]
  /\ journal
       (sweep int_ne accept
          (example_ioc [example_group 0 None; example_group 1 None]) first_fails)
     = [Exception_update_failed; Slept 10000; Slept 60000]
  /\ journal
       (_update_group int_ne accept
          (example_ioc [example_group 0 None; example_group 1 None])
          (example_group 1 None) (first_fails 1)).1.1
     = [Wrote 1 "foo" (PInt 2); Stored 1].
Proof. repeat split; vm_compute; reflexivity. Qed.

(** C5, amended: when the update of a group raises, the groups before it in
    the sweep have been updated, the groups after it are left as they are
    until the next sweep, the exception is logged, the task sleeps 10
    seconds and then the [update_rate] seconds, and the loop goes on with
    the next sweep. *)
Theorem failure_ends_sweep
  (value_ne : pyval -> pyval -> option bool)
  (write : string -> pyval -> option pyval)
  (self : archstats) (env : nat -> tick)
  (pre post : list group) (g : group)
  (pre1 : list group) (self1 self2 : archstats) (g2 : group) (e : exn) :
  _dynamic_groups self = pre ++ g :: post ->
  update_groups value_ne write self pre env = (pre1, self1, None) ->
  _update_group value_ne write self1 g (env (gid g)) = (self2, g2, Some e) ->
  sweep value_ne write self env
    = log (set_groups self2 (pre1 ++ g2 :: post))
          [Exception_update_failed; Slept 10000; Slept (update_rate * 1000)]
  /\ forall envs,
       updater value_ne write self (env :: envs)
       = updater value_ne write
           (log (set_groups self2 (pre1 ++ g2 :: post))
                [Exception_update_failed; Slept 10000; Slept (update_rate * 1000)])
           envs.
Proof.
  intros Hgroups Hpre Hg.
  assert (Hsweep : sweep value_ne write self env
    = log (set_groups self2 (pre1 ++ g2 :: post))
          [Exception_update_failed; Slept 10000; Slept (update_rate * 1000)]).
  { unfold sweep. rewrite Hgroups, update_groups_app, Hpre.
    cbn [update_groups]. rewrite Hg.
    unfold log, set_groups. cbn. now rewrite <- List.app_assoc. }
  split; [exact Hsweep|].
  intros envs. cbn [updater]. now rewrite Hsweep.
Qed.

Lemma failure_ends_sweep_witness :
  _dynamic_groups
    (sweep int_ne accept
       (example_ioc [example_group 1 None; example_group 0 None;
                     example_group 2 None]) first_fails)
  = [set_prop (example_group 1 None) "foo" (PInt 2); example_group 0 None;
     example_group 2 None].
Proof.
  destruct (failure_ends_sweep int_ne accept
              (example_ioc [example_group 1 None; example_group 0 None;
                            example_group 2 None]) first_fails
              [example_group 1 None] [example_group 2 None] (example_group 0 None)
              [set_prop (example_group 1 None) "foo" (PInt 2)]
              (update_groups int_ne accept
                 (example_ioc [example_group 1 None; example_group 0 None;
                               example_group 2 None])
                 [example_group 1 None] first_fails).1.2
              (update_groups int_ne accept
                 (example_ioc [example_group 1 None; example_group 0 None;
                               example_group 2 None])
                 [example_group 1 None] first_fails).1.2
              (example_group 0 None) TransportError) as [Hsweep _].
  - reflexivity.
  - vm_compute. reflexivity.
  - vm_compute. reflexivity.
  - rewrite Hsweep. reflexivity.
Defined.

(** * Further properties of the code *)

(** ** The identifiers of [key_to_pv] *)

Lemma all_chars_app (p : ascii -> bool) (a b : string) :
  all_chars p (a +:+ b) = all_chars p a && all_chars p b.
Proof.
  induction a as [|c a IH]; [reflexivity|].
  rewrite append_cons. cbn [all_chars]. now rewrite IH, andb_assoc.
Qed.

Lemma all_chars_weaken (p q : ascii -> bool) (s : string) :
  (forall c, p c = true -> q c = true) ->
  all_chars p s = true -> all_chars q s = true.
Proof.
  intros Hpq. induction s as [|c s IH]; [reflexivity|].
  cbn [all_chars]. intros H. apply andb_true_iff in H as [Hc Hs].
  now rewrite (Hpq c Hc), IH.
Qed.

Lemma lower_char_of_upper (c : ascii) :
  Str.is_upper c = true -> Str.is_lower (Str.lower_char c) = true.
Proof.
  unfold Str.lower_char, Str.is_upper, Str.is_lower. intros H. rewrite H.
  apply andb_true_iff in H as [H1 H2].
  apply N.leb_le in H1, H2.
  rewrite N_ascii_embedding by lia.
  apply andb_true_iff. split; apply N.leb_le; lia.
Qed.

Lemma upper_char_of_lower (c : ascii) :
  Str.is_lower c = true -> Str.is_upper (Str.upper_char c) = true.
Proof.
  unfold Str.upper_char, Str.is_upper, Str.is_lower. intros H. rewrite H.
  apply andb_true_iff in H as [H1 H2].
  apply N.leb_le in H1, H2.
  rewrite N_ascii_embedding by lia.
  apply andb_true_iff. split; apply N.leb_le; lia.
Qed.

Lemma separate_wanted (in_run : bool) (s : string) :
  all_chars Inflection.wanted (Inflection.separate in_run s) = true.
Proof.
  revert in_run. induction s as [|c s IH]; intros in_run; [reflexivity|].
  cbn [Inflection.separate]. destruct (Inflection.wanted c) eqn:E.
  - cbn [all_chars]. now rewrite E, IH.
  - destruct in_run; [apply IH|]. cbn [all_chars]. now rewrite IH.
Qed.

Lemma squeeze_keeps (p : ascii -> bool) (after_dash : bool) (s : string) :
  all_chars p s = true -> all_chars p (Inflection.squeeze after_dash s) = true.
Proof.
  revert after_dash. induction s as [|c s IH]; intros b; [reflexivity|].
  cbn [all_chars Inflection.squeeze]. intros H.
  apply andb_true_iff in H as [Hc Hs].
  destruct (Ascii.eqb c "-"); [destruct b|]; cbn [all_chars];
    rewrite ?Hc; cbn [andb]; auto.
Qed.

Lemma trim_dashes_keeps (p : ascii -> bool) (s : string) :
  all_chars p s = true -> all_chars p (Inflection.trim_dashes s) = true.
Proof.
  unfold Inflection.trim_dashes. intros H.
  assert (H1 : all_chars p (Inflection.drop_leading_dash s) = true).
  { destruct s as [|c s]; [reflexivity|].
    cbn [all_chars] in H. apply andb_true_iff in H as [Hc Hs].
    unfold Inflection.drop_leading_dash.
    destruct c as [[] [] [] [] [] [] [] []]; cbn [all_chars];
      rewrite ?Hc; auto. }
  clear H. revert H1. generalize (Inflection.drop_leading_dash s). clear s.
  induction s as [|c s IH]; [reflexivity|].
  cbn [all_chars]. intros H. apply andb_true_iff in H as [Hc Hs].
  cbn [Inflection.drop_trailing_dash]. destruct s as [|d s].
  - destruct (Ascii.eqb c "-"); cbn [all_chars]; rewrite ?Hc; auto.
  - cbn [all_chars]. rewrite Hc. apply IH. exact Hs.
Qed.

Lemma lower_wanted (c : ascii) :
  Inflection.wanted c = true -> parametrized_char (Str.lower_char c) = true.
Proof.
  unfold Inflection.wanted, parametrized_char. intros H.
  destruct (Str.is_upper c) eqn:Eu.
  - now rewrite (lower_char_of_upper c Eu).
  - unfold Str.lower_char. rewrite Eu.
    rewrite orb_false_r in H. exact H.
Qed.

Lemma map_lower_parametrized (s : string) :
  all_chars Inflection.wanted s = true ->
  all_chars parametrized_char (Str.map_chars Str.lower_char s) = true.
Proof.
  induction s as [|c s IH]; [reflexivity|].
  cbn [all_chars Str.map_chars]. intros H.
  apply andb_true_iff in H as [Hc Hs].
  now rewrite (lower_wanted c Hc), IH.
Qed.

(** A parametrized text holds lower-case letters, digits, [-] and [_]. *)
Lemma parameterize_chars (s : string) :
  all_chars parametrized_char (Inflection.parameterize s) = true.
Proof.
  unfold Inflection.parameterize.
  apply map_lower_parametrized, trim_dashes_keeps, squeeze_keeps, separate_wanted.
Qed.

(** Replacing a one-character pattern by a one-character text: one step of
    the scan. *)
Lemma replace_char_cons (a b c : ascii) (s : string) :
  Str.replace (String a "") (String b "") (String c s) =
  String (if Ascii.eqb c a then b else c)
         (Str.replace (String a "") (String b "") s).
Proof.
  unfold Str.replace. cbn [Str.replace_from String.prefix String.length Nat.sub].
  destruct (ascii_dec a c) as [<-|Hne].
  - rewrite Ascii.eqb_refl. now destruct s.
  - destruct (Ascii.eqb_spec c a); [congruence | reflexivity].
Qed.

Lemma underscores_chars (s : string) :
  all_chars parametrized_char s = true ->
  all_chars underscored_char (Str.replace "-" "_" s) = true.
Proof.
  induction s as [|c s IH]; [reflexivity|].
  cbn [all_chars]. intros H. apply andb_true_iff in H as [Hc Hs].
  rewrite replace_char_cons. cbn [all_chars]. rewrite (IH Hs), andb_true_r.
  destruct (Ascii.eqb c "-") eqn:E; [reflexivity|].
  unfold parametrized_char in Hc. rewrite E, orb_false_r in Hc. exact Hc.
Qed.

Lemma upper_underscored (c : ascii) :
  underscored_char c = true -> pv_char (Str.upper_char c) = true.
Proof.
  unfold underscored_char, pv_char. intros H.
  destruct (Str.is_lower c) eqn:El.
  - rewrite (upper_char_of_lower c El). now rewrite orb_true_r.
  - unfold Str.upper_char. rewrite !El. cbn [orb] in H |- *.
    destruct (Str.is_upper c); [reflexivity | exact H].
Qed.

Lemma underscored_pv (c : ascii) :
  underscored_char c = true -> pv_char c = true.
Proof.
  unfold underscored_char, pv_char.
  destruct (Str.is_lower c), (Str.is_upper c), (Str.is_digit c),
    (Ascii.eqb c "_"); auto.
Qed.

Lemma camelize_chars (n : nat) :
  forall (at_start : bool) (s : string),
  (String.length s <= n)%nat ->
  all_chars underscored_char s = true ->
  all_chars pv_char (Inflection.camelize_from at_start s) = true.
Proof.
  induction n as [|n IH]; intros b s Hlen H.
  - destruct s; [reflexivity | cbn in Hlen; lia].
  - destruct s as [|c s]; [reflexivity|].
    cbn [all_chars] in H. apply andb_true_iff in H as [Hc Hs].
    cbn [String.length] in Hlen.
    cbn [Inflection.camelize_from]. destruct b.
    + destruct (Inflection.is_newline c); cbn [all_chars];
        rewrite ?(upper_underscored c Hc), ?(underscored_pv c Hc);
        apply IH; auto; lia.
    + destruct (Ascii.eqb c "_").
      * destruct s as [|d s]; [cbn [all_chars]; now rewrite (underscored_pv c Hc)|].
        cbn [all_chars] in Hs. apply andb_true_iff in Hs as [Hd Hs].
        cbn [String.length] in Hlen.
        destruct (Inflection.is_newline d); cbn [all_chars].
        -- rewrite (underscored_pv c Hc). apply IH; [cbn; lia|].
           cbn [all_chars]. now rewrite Hd, Hs.
        -- rewrite (upper_underscored d Hd). apply IH; [lia | exact Hs].
      * cbn [all_chars]. rewrite (underscored_pv c Hc). apply IH; [lia | exact Hs].
Qed.

(** X1: whatever the key, the identifier that [key_to_pv] makes holds only
    ASCII letters, digits and underscores. *)
Theorem key_to_pv_alphabet (key : string) :
  all_chars pv_char (key_to_pv key) = true.
Proof.
  unfold key_to_pv, Inflection.camelize.
  eapply camelize_chars; [reflexivity|].
  apply underscores_chars, parameterize_chars.
Qed.

Lemma string_app_assoc (a b c : string) : (a +:+ b) +:+ c = a +:+ (b +:+ c).
Proof.
  induction a as [|x a IH]; [reflexivity|]. now rewrite !append_cons, IH.
Qed.

Lemma string_app_nil_r (s : string) : s +:+ "" = s.
Proof.
  induction s as [|c s IH]; [reflexivity|]. now rewrite append_cons, IH.
Qed.

Lemma substring_all (s : string) : substring 0 (String.length s) s = s.
Proof. induction s as [|c s IH]; [reflexivity|]. cbn. now rewrite IH. Qed.

Lemma substring_split (k : nat) :
  forall s, (k <= String.length s)%nat ->
  substring 0 k s +:+ substring k (String.length s - k) s = s.
Proof.
  induction k as [|k IH]; intros s Hk.
  - rewrite Nat.sub_0_r, substring_all. now destruct s.
  - destruct s as [|c s]; [cbn in Hk; lia|].
    cbn [String.length] in Hk |- *. cbn [substring Nat.sub].
    rewrite append_cons, IH by lia. reflexivity.
Qed.

(** A text that ends with a suffix is what comes before it, then the
    suffix. *)
Lemma endswith_split (p s : string) :
  Str.endswith p s = true ->
  s = Str.drop_last (String.length p) s +:+ p.
Proof.
  unfold Str.endswith, Str.drop_last. intros H.
  apply andb_true_iff in H as [Hle Heq].
  apply Nat.leb_le in Hle. apply String.eqb_eq in Heq.
  pose proof (substring_split (String.length s - String.length p) s) as Hs.
  replace (String.length s - (String.length s - String.length p))%nat
    with (String.length p) in Hs by lia.
  rewrite Heq in Hs. symmetry. apply Hs. lia.
Qed.

Lemma alnum_wanted (c : ascii) : alnum c = true -> Inflection.wanted c = true.
Proof.
  unfold alnum, Inflection.wanted. intros H. now rewrite H.
Qed.

Lemma alnum_not_dash (c : ascii) : alnum c = true -> Ascii.eqb c "-" = false.
Proof.
  unfold alnum, Str.is_lower, Str.is_upper, Str.is_digit.
  destruct (Ascii.eqb_spec c "-") as [->|]; [discriminate | reflexivity].
Qed.

Lemma alnum_ascii (c : ascii) : alnum c = true -> Inflection.nfkd_ascii c = String c "".
Proof.
  unfold alnum, Str.is_lower, Str.is_upper, Str.is_digit, Inflection.nfkd_ascii.
  intros H. destruct (N.ltb_spec (N_of_ascii c) 128) as [|Hge]; [reflexivity|].
  exfalso. repeat (apply orb_true_iff in H as [H|H]);
    apply andb_true_iff in H as [H1 H2]; apply N.leb_le in H1, H2; lia.
Qed.

Lemma transliterate_app (a b : string) :
  Inflection.transliterate (a +:+ b)
  = Inflection.transliterate a +:+ Inflection.transliterate b.
Proof.
  induction a as [|c a IH]; [reflexivity|].
  rewrite append_cons. cbn [Inflection.transliterate].
  now rewrite IH, string_app_assoc.
Qed.

Lemma transliterate_alnum (w : string) :
  all_chars alnum w = true -> Inflection.transliterate w = w.
Proof.
  induction w as [|c w IH]; [reflexivity|].
  cbn [all_chars Inflection.transliterate]. intros H.
  apply andb_true_iff in H as [Hc Hw].
  now rewrite (alnum_ascii c Hc), (IH Hw).
Qed.

Lemma separate_alnum (in_run : bool) (w : string) :
  all_chars alnum w = true -> Inflection.separate in_run w = w.
Proof.
  revert in_run. induction w as [|c w IH]; intros r; [reflexivity|].
  cbn [all_chars Inflection.separate]. intros H.
  apply andb_true_iff in H as [Hc Hw].
  now rewrite (alnum_wanted c Hc), (IH false Hw).
Qed.

Lemma separate_suffix (in_run : bool) (x w : string) :
  all_chars alnum w = true ->
  Inflection.separate in_run (x +:+ w) = Inflection.separate in_run x +:+ w.
Proof.
  intros Hw. revert in_run. induction x as [|c x IH]; intros r.
  - now apply separate_alnum.
  - rewrite append_cons. cbn [Inflection.separate].
    destruct (Inflection.wanted c); [|destruct r];
      rewrite ?append_cons, IH; reflexivity.
Qed.

Lemma squeeze_alnum (after_dash : bool) (w : string) :
  all_chars alnum w = true -> Inflection.squeeze after_dash w = w.
Proof.
  revert after_dash. induction w as [|c w IH]; intros b; [reflexivity|].
  cbn [all_chars Inflection.squeeze]. intros H.
  apply andb_true_iff in H as [Hc Hw].
  now rewrite (alnum_not_dash c Hc), (IH false Hw).
Qed.

Lemma squeeze_suffix (after_dash : bool) (y w : string) :
  all_chars alnum w = true ->
  Inflection.squeeze after_dash (y +:+ w) = Inflection.squeeze after_dash y +:+ w.
Proof.
  intros Hw. revert after_dash. induction y as [|c y IH]; intros b.
  - now apply squeeze_alnum.
  - rewrite append_cons. cbn [Inflection.squeeze].
    destruct (Ascii.eqb c "-"); [destruct b|];
      rewrite ?append_cons, IH; reflexivity.
Qed.

Lemma drop_leading_dash_suffix (z w : string) :
  all_chars alnum w = true ->
  Inflection.drop_leading_dash (z +:+ w) = Inflection.drop_leading_dash z +:+ w.
Proof.
  intros Hw. destruct z as [|c z].
  - change ("" +:+ w) with w. destruct w as [|d w]; [reflexivity|].
    cbn [all_chars] in Hw. apply andb_true_iff in Hw as [Hd _].
    apply alnum_not_dash in Hd.
    destruct d as [[] [] [] [] [] [] [] []]; try reflexivity; discriminate.
  - rewrite append_cons.
    destruct c as [[] [] [] [] [] [] [] []]; reflexivity.
Qed.

Lemma drop_trailing_dash_suffix (u w : string) :
  all_chars alnum w = true -> w <> "" ->
  Inflection.drop_trailing_dash (u +:+ w) = u +:+ w.
Proof.
  intros Hw Hne. induction u as [|c u IH].
  - change ("" +:+ w) with w. clear Hne.
    induction w as [|d w IHw]; [reflexivity|].
    cbn [all_chars] in Hw. apply andb_true_iff in Hw as [Hd Hw].
    cbn [Inflection.drop_trailing_dash]. rewrite (alnum_not_dash d Hd).
    destruct w; [reflexivity|]. now rewrite IHw.
  - rewrite append_cons. cbn [Inflection.drop_trailing_dash].
    destruct (u +:+ w) as [|d t] eqn:E.
    + destruct u; [now destruct w | discriminate].
    + now rewrite IH.
Qed.

Lemma map_chars_app (f : ascii -> ascii) (a b : string) :
  Str.map_chars f (a +:+ b) = Str.map_chars f a +:+ Str.map_chars f b.
Proof.
  induction a as [|c a IH]; [reflexivity|].
  rewrite append_cons. cbn [Str.map_chars]. now rewrite IH.
Qed.

(** Parametrizing a text that ends with letters and digits: these only go
    to lower case, whatever comes before them. *)
Lemma parameterize_suffix (a w : string) :
  all_chars alnum w = true -> w <> "" ->
  Inflection.parameterize (a +:+ w)
  = Str.map_chars Str.lower_char
      (Inflection.drop_leading_dash
         (Inflection.squeeze false
            (Inflection.separate false (Inflection.transliterate a))))
    +:+ Str.map_chars Str.lower_char w.
Proof.
  intros Hw Hne. unfold Inflection.parameterize, Inflection.trim_dashes.
  rewrite transliterate_app, (transliterate_alnum w Hw).
  rewrite separate_suffix, squeeze_suffix, drop_leading_dash_suffix by exact Hw.
  rewrite drop_trailing_dash_suffix by assumption.
  apply map_chars_app.
Qed.

(** X2: the pre-filter of [key_to_pv] on the suffix [rate] changes nothing:
    the text is put in lower case by the parametrization that follows, so
    the identifier is the one the other pre-filters alone give. *)
Theorem key_to_pv_rate_filter_is_void (key : string) :
  key_to_pv key
  = Inflection.camelize
      (Str.replace "-" "_" (Inflection.parameterize (prefilter key))).
Proof.
  unfold key_to_pv. fold (prefilter key).
  destruct (Str.endswith "rate" (prefilter key)) eqn:E; [|reflexivity].
  apply endswith_split in E. cbn [String.length] in E.
  rewrite E at 2.
  now rewrite !parameterize_suffix by (reflexivity || discriminate).
Qed.

(** A label that ends in [rate] without a space before it keeps its lower
    case. *)
Example key_to_pv_glued_rate :
  key_to_pv "Datarate" = "Datarate" /\ key_to_pv "Data rate" = "DataRate".
Proof. split; vm_compute; reflexivity. Qed.

(** ** The transformers *)

(** X3: whatever the literal evaluator gives, a text is never coerced to a
    tuple: when the coercer returns, the value is not a tuple. *)
Theorem coerced_text_is_no_tuple
  (lit : string -> option pyval) (fuel : nat) (s : string) (r : pyval) :
  archiver_literal_eval lit fuel (PStr s) = Ok r -> is_tuple r = false.
Proof. intros H. eapply coerce_not_tuple; [|exact H]. reflexivity. Qed.

Lemma coerced_text_is_no_tuple_witness :
  Literal.literal_eval "160,732" = Some (PTuple [PInt 160; PInt 732])
  /\ is_tuple (PInt 160732) = false.
Proof.
  split; [vm_compute; reflexivity|].
  apply (coerced_text_is_no_tuple Literal.literal_eval 2 "160,732").
  vm_compute. reflexivity.
Defined.

Lemma for_each_app {A B} (f : A -> outcome (list B)) (xs ys : list A) :
  for_each f (xs ++ ys) =
    let* a := for_each f xs in
    let* b := for_each f ys in
    Ok (a ++ b).
Proof.
  induction xs as [|x xs IH]; cbn [app for_each bind].
  - destruct (for_each f ys); reflexivity.
  - destruct (f x) as [bs|?]; cbn [bind]; try reflexivity.
    rewrite IH. destruct (for_each f xs) as [a|?]; cbn [bind]; try reflexivity.
    destruct (for_each f ys) as [b|?]; cbn [bind]; try reflexivity.
    now rewrite List.app_assoc.
Qed.

(** X4: the fields that the detailed transformer makes of a payload are
    those of its items, in order: two payloads that transform give, put end
    to end, the two results end to end, and a payload that raises still
    raises with more items after it. *)
Theorem detailed_metrics_concat
  (lit : string -> option pyval) (fuel : nat) (instance : string)
  (xs ys : list pyval) (fx : list field) :
  detailed_metrics_to_pvproperties lit fuel instance (PList xs) = Ok fx ->
  (forall fy,
     detailed_metrics_to_pvproperties lit fuel instance (PList ys) = Ok fy ->
     detailed_metrics_to_pvproperties lit fuel instance (PList (xs ++ ys))
     = Ok (fx ++ fy))
  /\ (forall e,
        detailed_metrics_to_pvproperties lit fuel instance (PList ys) = Raise e ->
        detailed_metrics_to_pvproperties lit fuel instance (PList (xs ++ ys))
        = Raise e)
  /\ (forall e zs,
        detailed_metrics_to_pvproperties lit fuel instance (PList ys) = Raise e ->
        detailed_metrics_to_pvproperties lit fuel instance (PList (ys ++ zs))
        = Raise e).
Proof.
  unfold detailed_metrics_to_pvproperties. cbn [iterate bind].
  intros Hx. split; [|split].
  - intros fy Hy. now rewrite for_each_app, Hx, Hy.
  - intros e Hy. now rewrite for_each_app, Hx, Hy.
  - intros e zs Hy. now rewrite for_each_app, Hy.
Qed.

Lemma detailed_metrics_concat_witness :
  detailed_metrics_to_pvproperties Literal.literal_eval 2 "appliance0"
    (PList ([jobj [("name", PStr "PVs"); ("value", PStr "12")]]
            ++ [jobj [("name", PStr "Status"); ("value", PStr "None")]]))
  = Raise KeyError.
Proof.
  destruct (detailed_metrics_concat Literal.literal_eval 2 "appliance0"
              [jobj [("name", PStr "PVs"); ("value", PStr "12")]]
              [jobj [("name", PStr "Status"); ("value", PStr "None")]]
              [make_field "Pvs"
                 (PInt 12, {| doc := "PVs"; record := longin;
                              report_as_string := None; max_length := None |})])
    as (_ & Hraise & _).
  - vm_compute. reflexivity.
  - apply Hraise. vm_compute. reflexivity.
Defined.

(** X5: an estimated-bytes item whose name has no opening parenthesis
    cannot be cut into a name and a unit: the transform raises a
    [ValueError], whatever the items after it. *)
Theorem estimated_bytes_without_unit
  (lit : string -> option pyval) (fuel : nat) (instance : string)
  (d : list (pyval * pyval)) (name : string) (raw v : pyval)
  (rest : list pyval) :
  getitem_str (PDict d) "name" = Ok (PStr name) ->
  Str.startswith estimated_prefix name = true ->
  Str.contains "(" name = false ->
  getitem_str (PDict d) "value" = Ok raw ->
  archiver_literal_eval lit fuel raw = Ok v ->
  detailed_metrics_to_pvproperties lit fuel instance (PList (PDict d :: rest))
  = Raise ValueError.
Proof.
  intros Hname Hprefix Hparen Hvalue Hcoerce.
  unfold detailed_metrics_to_pvproperties. cbn [iterate bind for_each].
  unfold load_and_filter. rewrite Hname. cbn [bind as_str].
  rewrite Hprefix, Hvalue. cbn [bind]. rewrite Hcoerce. cbn [bind].
  now rewrite (rsplit1_none "(" name Hparen).
Qed.

Lemma estimated_bytes_without_unit_witness :
  detailed_metrics_to_pvproperties Literal.literal_eval 2 "appliance0"
    (PList [PDict [(PStr "name", PStr "Estimated bytes transferred in ETL");
                   (PStr "value", PStr "12")]])
  = Raise ValueError.
Proof.
  apply (estimated_bytes_without_unit Literal.literal_eval 2 "appliance0"
           [(PStr "name", PStr "Estimated bytes transferred in ETL");
            (PStr "value", PStr "12")]
           "Estimated bytes transferred in ETL" (PStr "12") (PInt 12) []);
    vm_compute; reflexivity.
Defined.

(** X6: an estimated-bytes item whose unit is none of [KB], [MB] and [GB]
    keeps its coerced value as it is, truthy or not, and is still renamed
    with [(MB)]. *)
Theorem estimated_bytes_other_unit
  (lit : string -> option pyval) (fuel : nat)
  (d : list (pyval * pyval)) (unitless tail : string) (raw v : pyval) :
  getitem_str (PDict d) "name" = Ok (PStr (unitless +:+ String "(" tail)) ->
  Str.startswith estimated_prefix (unitless +:+ String "(" tail) = true ->
  Str.contains "(" tail = false ->
  getitem_str (PDict d) "value" = Ok raw ->
  archiver_literal_eval lit fuel raw = Ok v ->
  ~ In (Str.rstrip ")" tail) ["KB"; "MB"; "GB"] ->
  load_and_filter lit fuel (PDict d)
  = Ok (PDict (dict_set (dict_set d "name" (PStr (unitless +:+ "(MB)")))
                        "value" v)).
Proof.
  intros Hname Hprefix Htail Hvalue Hcoerce Hunit.
  rewrite (load_and_filter_estimated lit fuel d unitless tail raw v
             Hname Hprefix Htail Hvalue Hcoerce).
  cbn zeta.
  destruct (String.eqb_spec (Str.rstrip ")" tail) "KB") as [E|_];
    [exfalso; apply Hunit; rewrite E; simpl; auto|].
  destruct (String.eqb_spec (Str.rstrip ")" tail) "MB") as [E|_];
    [exfalso; apply Hunit; rewrite E; simpl; auto|].
  destruct (String.eqb_spec (Str.rstrip ")" tail) "GB") as [E|_];
    [exfalso; apply Hunit; rewrite E; simpl; auto|].
  now destruct (truthy v).
Qed.

Lemma estimated_bytes_other_unit_witness :
  load_and_filter Literal.literal_eval 2
    (PDict [(PStr "name", PStr "Estimated bytes transferred in ETL(0)(TB)");
            (PStr "value", PStr "3")])
  = Ok (PDict [(PStr "name", PStr "Estimated bytes transferred in ETL(0)(MB)");
               (PStr "value", PInt 3)]).
Proof.
  apply (estimated_bytes_other_unit Literal.literal_eval 2
           [(PStr "name", PStr "Estimated bytes transferred in ETL(0)(TB)");
            (PStr "value", PStr "3")]
           "Estimated bytes transferred in ETL(0)" "TB)" (PStr "3") (PInt 3));
    try (vm_compute; reflexivity).
  simpl. intros [H|[H|[H|[]]]]; discriminate.
Defined.

(** X19: for an item whose name starts with the estimated-bytes prefix and
    ends with the unit suffix [(KB)], [(MB)] or [(GB)], and whose coerced
    value is a truthy number (a [bool], an [int] or a [float], with [f] the
    float it converts to), the transform emits one field whose value is
    [f / 1024.0] for [KB], [f * 1024.0] for [GB] and the coerced value
    itself for [MB], under the name made of the item's name with [(MB)] in
    place of the unit suffix. *)
Theorem estimated_bytes_in_megabytes
  (lit : string -> option pyval) (fuel : nat) (instance : string)
  (d : list (pyval * pyval)) (unitless units : string) (raw v : pyval)
  (f : spec_float) :
  In units ["KB"; "MB"; "GB"] ->
  getitem_str (PDict d) "name" = Ok (PStr (unitless +:+ "(" +:+ units +:+ ")")) ->
  Str.startswith estimated_prefix (unitless +:+ "(" +:+ units +:+ ")") = true ->
  getitem_str (PDict d) "value" = Ok raw ->
  archiver_literal_eval lit fuel raw = Ok v ->
  truthy v = true ->
  as_float v = Ok f ->
  emits (detailed_metrics_to_pvproperties lit fuel instance (PList [PDict d]))
        (key_to_pv (unitless +:+ "(MB)"))
        (if String.eqb units "KB" then PFloat (SFdiv prec64 emax64 f f1024)
         else if String.eqb units "GB" then PFloat (SFmul prec64 emax64 f f1024)
         else v)
        (unitless +:+ "(MB)").
Proof.
  intros Hu Hname Hprefix Hvalue Hcoerce Htruthy Hfloat.
  destruct (as_float_numeric v f Hfloat) as [Hstr Hhosted].
  assert (Hitem := fun tail Hn Hp Ht =>
    load_and_filter_estimated lit fuel d unitless tail raw v Hn Hp Ht Hvalue Hcoerce).
  destruct Hu as [<-|[<-|[<-|[]]]].
  - specialize (Hitem "KB)" Hname Hprefix eq_refl).
    cbn in Hitem. rewrite Htruthy in Hitem.
    unfold truediv_float in Hitem. rewrite Hfloat in Hitem. cbn in Hitem.
    eapply (detailed_field_of_item lit fuel instance d); [exact Hitem| |reflexivity].
    eapply coerce_again; [exact Hcoerce | reflexivity].
  - specialize (Hitem "MB)" Hname Hprefix eq_refl).
    cbn in Hitem. rewrite Htruthy in Hitem. cbn in Hitem.
    eapply (detailed_field_of_item lit fuel instance d); [exact Hitem| |exact Hhosted].
    eapply coerce_again; [exact Hcoerce | exact Hstr].
  - specialize (Hitem "GB)" Hname Hprefix eq_refl).
    cbn in Hitem. rewrite Htruthy in Hitem.
    unfold mul_float in Hitem. rewrite Hfloat in Hitem. cbn in Hitem.
    eapply (detailed_field_of_item lit fuel instance d); [exact Hitem| |reflexivity].
    eapply coerce_again; [exact Hcoerce | reflexivity].
Qed.

Lemma estimated_bytes_in_megabytes_witness :
  truthy (PInt 2048) = true
  /\ as_float (PInt 2048) = Ok (float64_of_Z 2048)
  /\ emits (detailed_metrics_to_pvproperties Literal.literal_eval 2 "appliance0"
              (PList [PDict [(PStr "name", PStr estimated_kb);
                             (PStr "value", PStr "2048");
                             (PStr "source", PStr "etl")]]))
           "EstimatedBytesTransferredInEtl01Mb"
           (PFloat (float64_of_Z 2))
           ("Estimated bytes transferred in ETL(0" +:+ guillemet +:+ "1)(MB)").
Proof.
  split; [reflexivity|]. split; [vm_compute; reflexivity|].
  apply (estimated_bytes_in_megabytes Literal.literal_eval 2 "appliance0"
           [(PStr "name", PStr estimated_kb); (PStr "value", PStr "2048");
            (PStr "source", PStr "etl")]
           ("Estimated bytes transferred in ETL(0" +:+ guillemet +:+ "1)")
           "KB" (PStr "2048") (PInt 2048) (float64_of_Z 2048)).
  - simpl. auto.
  - vm_compute. reflexivity.
  - vm_compute. reflexivity.
  - reflexivity.
  - vm_compute. reflexivity.
  - reflexivity.
  - vm_compute. reflexivity.
Defined.

(** X20: for an item whose name starts with the estimated-bytes prefix and
    whose coerced value is truthy: under the unit [KB] or [GB], a value that
    is no [bool], [int] or [float] (a text, bytes, a list, a set, a
    dictionary) makes [load_and_filter] and the whole transform raise a
    [TypeError], whatever the items after it; under the unit [MB],
    [load_and_filter] yields the coerced value as it is, number or not,
    with the [(MB)] name. *)
Theorem estimated_bytes_not_a_number
  (lit : string -> option pyval) (fuel : nat) (instance : string)
  (d : list (pyval * pyval)) (unitless units : string) (raw v : pyval) :
  getitem_str (PDict d) "name" = Ok (PStr (unitless +:+ "(" +:+ units +:+ ")")) ->
  Str.startswith estimated_prefix (unitless +:+ "(" +:+ units +:+ ")") = true ->
  getitem_str (PDict d) "value" = Ok raw ->
  archiver_literal_eval lit fuel raw = Ok v ->
  truthy v = true ->
  (In units ["KB"; "GB"] -> numeric v = false ->
     load_and_filter lit fuel (PDict d) = Raise TypeError
     /\ forall rest,
          detailed_metrics_to_pvproperties lit fuel instance
            (PList (PDict d :: rest)) = Raise TypeError)
  /\ (units = "MB" ->
        load_and_filter lit fuel (PDict d)
        = Ok (PDict (dict_set (dict_set d "name" (PStr (unitless +:+ "(MB)")))
                              "value" v))).
Proof.
  intros Hname Hprefix Hvalue Hcoerce Htruthy.
  assert (Hitem := fun tail Hn Hp Ht =>
    load_and_filter_estimated lit fuel d unitless tail raw v Hn Hp Ht Hvalue Hcoerce).
  split.
  - intros Hu Hnum.
    assert (Hfloat : as_float v = Raise TypeError)
      by (destruct v; try reflexivity; discriminate).
    assert (Hraise : load_and_filter lit fuel (PDict d) = Raise TypeError).
    { destruct Hu as [<-|[<-|[]]].
      - specialize (Hitem "KB)" Hname Hprefix eq_refl).
        cbn in Hitem. rewrite Htruthy in Hitem.
        unfold truediv_float in Hitem. rewrite Hfloat in Hitem. exact Hitem.
      - specialize (Hitem "GB)" Hname Hprefix eq_refl).
        cbn in Hitem. rewrite Htruthy in Hitem.
        unfold mul_float in Hitem. rewrite Hfloat in Hitem. exact Hitem. }
    split; [exact Hraise|].
    intros rest. unfold detailed_metrics_to_pvproperties.
    cbn [iterate bind for_each]. rewrite Hraise. reflexivity.
  - intros ->. specialize (Hitem "MB)" Hname Hprefix eq_refl).
    cbn in Hitem. rewrite Htruthy in Hitem. exact Hitem.
Qed.

Lemma estimated_bytes_not_a_number_witness :
  detailed_metrics_to_pvproperties Literal.literal_eval 2 "appliance0"
    (PList [PDict [(PStr "name", PStr estimated_kb); (PStr "value", PStr "N/A")];
            PDict [(PStr "name", PStr "pvCount"); (PStr "value", PStr "3")]])
  = Raise TypeError.
Proof.
  destruct (estimated_bytes_not_a_number Literal.literal_eval 2 "appliance0"
              [(PStr "name", PStr estimated_kb); (PStr "value", PStr "N/A")]
              ("Estimated bytes transferred in ETL(0" +:+ guillemet +:+ "1)")
              "KB" (PStr "N/A") (PStr "N/A")) as [Hraise _];
    [vm_compute; reflexivity .. |].
  assert (Hu : In "KB" ["KB"; "GB"]) by (simpl; auto).
  destruct (Hraise Hu eq_refl) as [_ Hall].
  apply Hall.
Defined.

Lemma Ok_inj {A} (a b : A) : Ok a = Ok b -> a = b.
Proof. now intros [= ->]. Qed.

Lemma for_each_single {A B} (f : A -> outcome (list B)) (a : A) :
  for_each f [a] = let* bs := f a in Ok bs.
Proof.
  cbn [for_each bind]. destruct (f a) as [bs|?]; cbn [bind]; try reflexivity.
  now rewrite List.app_nil_r.
Qed.

Section PerKey.

Variable lit : string -> option pyval.
Variable fuel : nat.
Variable whole : pyval.
Variable label : string.

(** The inner loop of the storage transformer, over the entries of one
    object. *)
Lemma storage_entries_names (entries : list (pyval * pyval)) :
  getitem_str whole "name" = Ok (PStr label) ->
  forall fields,
  for_each (fun '(key, value) =>
      if key_is_str key "name" then Ok []
      else
        let* name := to_storage_pv whole key in
        let* doc := as_str key in
        let* spec := _value_to_pvproperty_kwargs lit fuel doc value in
        Ok [make_field name spec]) entries = Ok fields ->
  List.map f_name fields
  = List.map (fun k => label +:+ ":" +:+ Inflection.camelize k)
      (List.filter (fun k => negb (String.eqb k "name")) (str_keys entries))
  /\ List.map f_doc fields
     = List.map Some
         (List.filter (fun k => negb (String.eqb k "name")) (str_keys entries)).
Proof.
  intros Hname. induction entries as [|[k x] entries IH]; intros fields H.
  - cbn in H. apply Ok_inj in H. now subst fields.
  - cbn [for_each] in H.
    match type of H with
    | context [for_each ?f entries] =>
        destruct (for_each f entries) as [rest|?] eqn:Et
    end.
    + specialize (IH rest eq_refl). destruct IH as [IHn IHd].
      destruct (key_is_str k "name") eqn:Ek.
      * apply key_is_str_eq in Ek. subst k. cbn [bind app] in H.
        apply Ok_inj in H. subst fields. now split.
      * unfold to_storage_pv in H. rewrite Hname in H. cbn [bind add_str] in H.
        destruct k; try discriminate. cbn [bind as_str] in H.
        destruct (_value_to_pvproperty_kwargs lit fuel s x) as [spec|?] eqn:Es;
          cbn [bind] in H; try discriminate.
        apply Ok_inj in H. subst fields.
        cbn [str_keys flat_map fst app List.filter].
        cbn [key_is_str] in Ek. rewrite Ek.
        cbn [negb List.map make_field f_name].
        rewrite string_app_assoc. split; [f_equal; exact IHn|].
        f_equal; [|exact IHd].
        unfold f_doc. cbn [f_kwargs option_map]. f_equal.
        unfold _value_to_pvproperty_kwargs in Es.
        destruct (archiver_literal_eval lit fuel x) as [v|?];
          cbn [bind] in Es; try discriminate.
        destruct (record_of_type (type_of v)) as [r|?];
          cbn [bind] in Es; try discriminate.
        apply Ok_inj in Es. subst spec. now destruct (is_str v).
    + destruct (key_is_str k "name"); [discriminate|].
      destruct (to_storage_pv whole k); cbn [bind] in H; try discriminate.
      destruct (as_str k); cbn [bind] in H; try discriminate.
      destruct (_value_to_pvproperty_kwargs lit fuel a0 x);
        cbn [bind] in H; discriminate.
Qed.

(** The inner loop of the instance transformer, over the entries of one
    object. *)
Lemma instance_entries_names (entries : list (pyval * pyval)) :
  getitem_str whole "instance" = Ok (PStr label) ->
  forall fields,
  for_each (fun '(key, value) =>
      let* name := to_instance_pv whole key in
      let* doc := as_str key in
      let* spec := _value_to_pvproperty_kwargs lit fuel doc value in
      Ok [make_field name spec]) entries = Ok fields ->
  List.map f_name fields
  = List.map (fun k => label +:+ ":" +:+ key_to_pv k) (str_keys entries)
  /\ List.length fields = List.length entries.
Proof.
  intros Hname. induction entries as [|[k x] entries IH]; intros fields H.
  - cbn in H. apply Ok_inj in H. subst fields. now split.
  - cbn [for_each] in H.
    match type of H with
    | context [for_each ?f entries] =>
        destruct (for_each f entries) as [rest|?] eqn:Et
    end.
    + destruct (IH rest eq_refl) as [IHn IHl].
      unfold to_instance_pv in H. rewrite Hname in H. cbn [bind add_str] in H.
      destruct k; try discriminate. cbn [bind as_str] in H.
      destruct (_value_to_pvproperty_kwargs lit fuel s x) as [spec|?];
        cbn [bind] in H; try discriminate.
      apply Ok_inj in H. subst fields.
      cbn [str_keys flat_map fst app List.map make_field f_name List.length].
      rewrite string_app_assoc. split; [f_equal; exact IHn | f_equal; exact IHl].
    + destruct (to_instance_pv whole k); cbn [bind] in H; try discriminate.
      destruct (as_str k); cbn [bind] in H; try discriminate.
      destruct (_value_to_pvproperty_kwargs lit fuel a0 x);
        cbn [bind] in H; discriminate.
Qed.

End PerKey.

(** X7: when the storage transformer returns for a payload of one object,
    its fields are, in order, those of the keys other than [name]: the
    discriminator gives no field, and the documentation string of each
    field is its key.  When those keys are ASCII text, each field is named
    by the value of [name], a colon and the camelized key. *)
Theorem storage_fields_skip_name
  (lit : string -> option pyval) (fuel : nat)
  (entries : list (pyval * pyval)) (label : string) (fields : list field) :
  getitem_str (PDict entries) "name" = Ok (PStr label) ->
  storage_metrics_to_pvproperties lit fuel (PList [PDict entries]) = Ok fields ->
  let keys :=
    List.filter (fun k => negb (String.eqb k "name")) (str_keys entries) in
  List.map f_doc fields = List.map Some keys
  /\ (forallb ascii_text keys = true ->
      List.map f_name fields
      = List.map (fun k => label +:+ ":" +:+ Inflection.camelize k) keys).
Proof.
  intros Hname. unfold storage_metrics_to_pvproperties.
  cbn [iterate bind]. rewrite for_each_single. cbn [items bind].
  intros H. cbn zeta.
  destruct (for_each _ entries) as [bs|?] eqn:E; cbn [bind] in H;
    try discriminate.
  injection H as <-.
  destruct (storage_entries_names lit fuel (PDict entries) label entries Hname bs E)
    as [Hn Hd].
  split; [exact Hd | intros _; exact Hn].
Qed.

Lemma storage_fields_skip_name_witness :
  forallb ascii_text ["total_space"] = true
  /\ List.map f_name
       [make_field "STS:TotalSpace"
          (PInt 160732, {| doc := "total_space"; record := longin;
                           report_as_string := None; max_length := None |})]
     = ["STS:TotalSpace"].
Proof.
  split; [reflexivity|].
  destruct (storage_fields_skip_name Literal.literal_eval 2
              [(PStr "name", PStr "STS"); (PStr "total_space", PStr "160,732")]
              "STS"
              [make_field "STS:TotalSpace"
                 (PInt 160732, {| doc := "total_space"; record := longin;
                                  report_as_string := None;
                                  max_length := None |})])
    as [_ Hnames].
  - reflexivity.
  - vm_compute. reflexivity.
  - exact (Hnames eq_refl).
Defined.

(** X8: when the instance transformer returns for a payload of one object,
    it has one field for each key of the object, the key [instance]
    included, in order, each named by the value of [instance], a colon and
    the identifier of the key. *)
Theorem instance_fields_names
  (lit : string -> option pyval) (fuel : nat)
  (entries : list (pyval * pyval)) (label : string) (fields : list field) :
  getitem_str (PDict entries) "instance" = Ok (PStr label) ->
  instance_metrics_to_pvproperties lit fuel (PList [PDict entries]) = Ok fields ->
  List.map f_name fields
  = List.map (fun k => label +:+ ":" +:+ key_to_pv k) (str_keys entries)
  /\ List.length fields = List.length entries.
Proof.
  intros Hname. unfold instance_metrics_to_pvproperties.
  cbn [iterate bind]. rewrite for_each_single. cbn [items bind].
  intros H.
  destruct (for_each _ entries) as [bs|?] eqn:E; cbn [bind] in H;
    try discriminate.
  injection H as <-.
  exact (instance_entries_names lit fuel (PDict entries) label entries Hname bs E).
Qed.

Lemma instance_fields_names_witness :
  List.map f_name
    [make_field "appliance0:Instance"
       (PStr "appliance0", {| doc := "instance"; record := stringin;
                              report_as_string := Some true;
                              max_length := Some 2000 |});
     make_field "appliance0:Pvcount"
       (PInt 160732, {| doc := "pvCount"; record := longin;
                        report_as_string := None; max_length := None |})]
  = ["appliance0:Instance"; "appliance0:Pvcount"].
Proof.
  apply (instance_fields_names Literal.literal_eval 2
           [(PStr "instance", PStr "appliance0"); (PStr "pvCount", PStr "160,732")]
           "appliance0").
  - reflexivity.
  - vm_compute. reflexivity.
Defined.

(** X9: an object that has keys but no key [instance] makes the instance
    transformer raise a [KeyError], whatever its other keys and the objects
    after it. *)
Theorem instance_key_missing
  (lit : string -> option pyval) (fuel : nat)
  (kv : pyval * pyval) (entries : list (pyval * pyval)) (rest : list pyval) :
  getitem_str (PDict (kv :: entries)) "instance" = Raise KeyError ->
  instance_metrics_to_pvproperties lit fuel (PList (PDict (kv :: entries) :: rest))
  = Raise KeyError.
Proof.
  intros H. unfold instance_metrics_to_pvproperties.
  cbn [iterate bind for_each items]. destruct kv as [k x].
  unfold to_instance_pv. rewrite H. reflexivity.
Qed.

Lemma instance_key_missing_witness :
  instance_metrics_to_pvproperties Literal.literal_eval 2
    (PList [PDict [(PStr "status", PStr "Working")]])
  = Raise KeyError.
Proof.
  apply (instance_key_missing Literal.literal_eval 2
           (PStr "status", PStr "Working") [] []).
  reflexivity.
Defined.

(** X10: on a payload whose items are objects with text keys and, when they
    have one, a text [label], the process transformer does not raise: it
    gives one field per item, in order, whose value is [get_value] of the
    item's [data] and which has no keyword arguments. *)
Theorem process_metrics_total (items : list pyval) :
  forallb well_labelled items = true ->
  exists fields,
    process_metrics_to_pvproperties (PList items) = Ok fields
    /\ List.map f_value fields = List.map (fun i => get_value (data_of i)) items
    /\ List.map f_kwargs fields = List.map (fun _ => None) items.
Proof.
  unfold process_metrics_to_pvproperties. cbn [iterate bind].
  induction items as [|item items IH]; intros H.
  - exists []. repeat split.
  - cbn [forallb] in H. apply andb_true_iff in H as [Hi Hs].
    destruct (IH Hs) as (rest & Hrest & Hv & Hk).
    destruct item; try discriminate.
    cbn [well_labelled] in Hi. apply andb_true_iff in Hi as [Hkeys Hlabel].
    cbn [for_each]. unfold to_process_info at 1. rewrite Hkeys.
    destruct (keyword l "label" (PStr "unknown")) eqn:El; try discriminate.
    cbn [as_str bind]. rewrite Hrest. cbn [bind app].
    eexists. split; [reflexivity|].
    cbn [List.map f_value f_kwargs data_of]. now rewrite Hv, Hk.
Qed.

Lemma process_metrics_total_witness :
  exists fields,
    process_metrics_to_pvproperties
      (PList [jobj [("data", PList [PList [PInt 1; PInt 10]])]; jobj []])
    = Ok fields
    /\ List.map f_name fields = ["Unknown"; "Unknown"]
    /\ List.map f_value fields = [PInt 10; PInt 0].
Proof.
  destruct (process_metrics_total
              [jobj [("data", PList [PList [PInt 1; PInt 10]])]; jobj []]
              eq_refl) as (fields & Hf & Hv & _).
  exists fields. split; [exact Hf|].
  vm_compute in Hf. injection Hf as <-. split; reflexivity.
Defined.

(** ** The update loop *)

Section MoreSync.

Variable value_ne : pyval -> pyval -> option bool.
Variable write : string -> pyval -> option pyval.

Lemma targets_set_prop (g : group) (attr : string) (v : pyval)
  (fields : list field) :
  targets (set_prop g attr v) fields = targets g fields.
Proof. reflexivity. Qed.

(** The loop over a batch leaves the attributes it does not name as they
    are. *)
Lemma update_items_frame (fields : list field) :
  forall g j c g' j' c' err,
  update_items value_ne write g j c fields = (g', j', c', err) ->
  forall a, ~ In a (targets g fields) -> props g' !! a = props g !! a.
Proof.
  induction fields as [|item rest IH]; intros g j c g' j' c' err H a Ha.
  - now injection H as <- _ _ _.
  - cbn [update_items] in H. cbn [targets flat_map] in Ha.
    destruct (key_to_attr_map g !! f_name item) as [attr|] eqn:Ek.
    + rewrite List.in_app_iff in Ha. cbn [In] in Ha.
      destruct (props g !! attr) as [current|]; [|now injection H as <- _ _ _].
      destruct (compare_and_write value_ne write attr current (f_value item))
        as [[v|]|].
      * apply IH with (a := a) in H; [|rewrite targets_set_prop; tauto].
        rewrite H. cbn [set_prop props]. apply lookup_insert_ne. tauto.
      * apply IH with (a := a) in H; [exact H | tauto].
      * apply IH with (a := a) in H; [exact H | tauto].
    + apply IH with (a := a) in H; [exact H | exact Ha].
Qed.

Lemma targets_app (g : group) (a b : list field) :
  targets g (a ++ b) = targets g a ++ targets g b.
Proof. unfold targets. apply List.flat_map_app. Qed.

Lemma targets_same_map (g g' : group) (fields : list field) :
  key_to_attr_map g' = key_to_attr_map g ->
  targets g' fields = targets g fields.
Proof. unfold targets. now intros ->. Qed.

Lemma update_requests_frame (rs : list response) :
  forall g j c g' j' c' err,
  update_requests value_ne write g j c rs = (g', j', c', err) ->
  forall a, ~ In a (targets g (fetched rs)) -> props g' !! a = props g !! a.
Proof.
  induction rs as [|r rest IH]; intros g j c g' j' c' err H a Ha.
  - now injection H as <- _ _ _.
  - cbn [update_requests] in H. cbn [fetched flat_map] in Ha.
    destruct r as [fields|e]; [|now injection H as <- _ _ _].
    rewrite targets_app, List.in_app_iff in Ha.
    destruct (update_items value_ne write g j c fields)
      as [[[g1 j1] c1] [e1|]] eqn:E1.
    + injection H as <- _ _ _.
      eapply update_items_frame; [exact E1 | tauto].
    + pose proof (update_items_spec _ _ _ _ _ _ _ _ _ _ E1) as (_ & Hk & _).
      apply IH with (a := a) in H;
        [|rewrite (targets_same_map _ _ _ Hk); tauto].
      rewrite H. eapply update_items_frame; [exact E1 | tauto].
Qed.

End MoreSync.

(** X11: an update of a group, whether it returns or raises, leaves every
    attribute that no fetched field names with the value it had. *)
Theorem update_keeps_other_attributes
  (value_ne : pyval -> pyval -> option bool)
  (write : string -> pyval -> option pyval)
  (self : archstats) (g : group) (t : tick)
  (self' : archstats) (g' : group) (r : option exn) (a : string) :
  _update_group value_ne write self g t = (self', g', r) ->
  ~ In a (targets g (fetched (responses t))) ->
  props g' !! a = props g !! a.
Proof.
  unfold _update_group. intros H Ha.
  destruct (update_requests value_ne write g (journal self) false (responses t))
    as [[[g1 j1] c1] err] eqn:E.
  assert (Hg : g' = g1).
  { destruct err as [e|]; [now injection H as _ <- _|].
    destruct (_document_count (set_journal self j1) !! gid g1) as [n|];
      [|now injection H as _ <- _].
    destruct (c1 || (Nat.eqb n 0 && is_none (init_document g1)));
      [|now injection H as _ <- _].
    destruct (store_raises t); now injection H as _ <- _. }
  subst g'. eapply update_requests_frame; eauto.
Qed.

Lemma update_keeps_other_attributes_witness :
  props (_update_group int_ne accept
           (example_ioc [set_prop (example_group 0 None) "bar" (PInt 5)])
           (set_prop (example_group 0 None) "bar" (PInt 5)) changing_tick).1.2
    !! "bar"
  = Some (PInt 5).
Proof.
  destruct (_update_group int_ne accept
              (example_ioc [set_prop (example_group 0 None) "bar" (PInt 5)])
              (set_prop (example_group 0 None) "bar" (PInt 5)) changing_tick)
    as [[self' g'] r] eqn:E.
  cbn [fst snd].
  rewrite (update_keeps_other_attributes _ _ _ _ _ _ _ _ "bar" E).
  - reflexivity.
  - vm_compute. intros [H|[]]. discriminate.
Defined.

Section Idempotence.

Variable value_ne : pyval -> pyval -> option bool.
Variable write : string -> pyval -> option pyval.

(** A settled batch writes nothing, changes nothing and raises nothing. *)
Lemma settled_batch_is_quiet (fields : list field) :
  forall g j c,
  settled value_ne write g fields ->
  exists evs,
    update_items value_ne write g j c fields = (g, j ++ evs, c, None)
    /\ forall n, wrote n evs = false.
Proof.
  induction fields as [|item rest IH]; intros g j c Hs.
  - exists []. now rewrite List.app_nil_r.
  - assert (Hrest : settled value_ne write g rest).
    { intros i a Hi. apply Hs. now right. }
    cbn [update_items].
    destruct (key_to_attr_map g !! f_name item) as [attr|] eqn:Ek.
    + destruct (Hs item attr (or_introl eq_refl) Ek) as (current & Hp & Hq).
      rewrite Hp.
      destruct (compare_and_write value_ne write attr current (f_value item))
        as [[v|]|].
      * now destruct (Hq v).
      * apply IH, Hrest.
      * destruct (IH g (j ++ [Exception_failed_update attr item]) c Hrest)
          as (evs & -> & Hw).
        exists (Exception_failed_update attr item :: evs).
        now rewrite <- List.app_assoc.
    + destruct (IH g (j ++ [Warning_new_entry item]) c Hrest) as (evs & -> & Hw).
      exists (Warning_new_entry item :: evs).
      now rewrite <- List.app_assoc.
Qed.

(** A batch that names no attribute twice and runs to its end leaves the
    group settled for it. *)
Lemma batch_settles (fields : list field) :
  forall g j c g1 j1 c1,
  faithful_writes value_ne write fields ->
  NoDup (targets g fields) ->
  update_items value_ne write g j c fields = (g1, j1, c1, None) ->
  settled value_ne write g1 fields.
Proof.
  induction fields as [|item rest IH]; intros g j c g1 j1 c1 Hw Hnd H.
  - intros i a [].
  - assert (Hw' : faithful_writes value_ne write rest).
    { intros i a v Hi. apply Hw. now right. }
    pose proof (update_items_spec _ _ _ _ _ _ _ _ _ _ H) as (_ & Hk1 & _).
    cbn [update_items] in H. cbn [targets flat_map] in Hnd.
    destruct (key_to_attr_map g !! f_name item) as [attr|] eqn:Ek.
    + cbn [app] in Hnd. apply List.NoDup_cons_iff in Hnd as [Hnot Hnd].
      fold (targets g rest) in Hnot, Hnd.
      destruct (props g !! attr) as [current|] eqn:Ep; [|discriminate].
      destruct (compare_and_write value_ne write attr current (f_value item))
        as [[v|]|] eqn:Ec.
      * pose proof (update_items_frame _ _ _ _ _ _ _ _ _ _ H attr Hnot) as Hf.
        cbn [set_prop props] in Hf. rewrite lookup_insert_eq in Hf.
        specialize (IH (set_prop g attr v) _ _ _ _ _ Hw' Hnd H).
        intros i a [<-|Hi] Ha.
        -- rewrite Hk1, Ek in Ha. injection Ha as <-.
           exists v. split; [exact Hf|].
           unfold compare_and_write in Ec |- *.
           destruct (value_ne current (f_value item)) as [[]|]; try discriminate.
           destruct (write attr (f_value item)) as [v'|] eqn:Ew; [|discriminate].
           injection Ec as ->.
           rewrite (Hw item attr v (or_introl eq_refl) Ew). discriminate.
        -- now apply IH.
      * pose proof (update_items_frame _ _ _ _ _ _ _ _ _ _ H attr Hnot) as Hf.
        specialize (IH g _ _ _ _ _ Hw' Hnd H).
        intros i a [<-|Hi] Ha.
        -- rewrite Hk1, Ek in Ha. injection Ha as <-.
           exists current. rewrite Hf, Ep, Ec. split; [reflexivity | discriminate].
        -- now apply IH.
      * pose proof (update_items_frame _ _ _ _ _ _ _ _ _ _ H attr Hnot) as Hf.
        specialize (IH g _ _ _ _ _ Hw' Hnd H).
        intros i a [<-|Hi] Ha.
        -- rewrite Hk1, Ek in Ha. injection Ha as <-.
           exists current. rewrite Hf, Ep, Ec. split; [reflexivity | discriminate].
        -- now apply IH.
    + cbn [app] in Hnd. fold (targets g rest) in Hnd.
      specialize (IH g _ _ _ _ _ Hw' Hnd H).
      intros i a [<-|Hi] Ha.
      * rewrite Hk1, Ek in Ha. discriminate.
      * now apply IH.
Qed.

End Idempotence.

(** X12: a batch of fields that names no attribute twice, that runs to its
    end, and whose written values compare equal to the values they were
    written from, can be applied again at once: the second pass writes
    nothing, leaves the group and the flag [changed] as they are and runs
    to its end. *)
Theorem same_batch_twice
  (value_ne : pyval -> pyval -> option bool)
  (write : string -> pyval -> option pyval)
  (fields : list field) (g : group) (j : list event) (c : bool)
  (g1 : group) (j1 : list event) (c1 : bool) :
  faithful_writes value_ne write fields ->
  NoDup (targets g fields) ->
  update_items value_ne write g j c fields = (g1, j1, c1, None) ->
  exists evs,
    update_items value_ne write g1 j1 false fields = (g1, j1 ++ evs, false, None)
    /\ wrote (gid g) evs = false.
Proof.
  intros Hw Hnd H.
  destruct (settled_batch_is_quiet value_ne write fields g1 j1 false
              (batch_settles value_ne write fields _ _ _ _ _ _ Hw Hnd H))
    as (evs & He & Hq).
  exists evs. split; [exact He | apply Hq].
Qed.

Lemma same_batch_twice_witness :
  exists evs,
    update_items int_ne accept
      (set_prop (example_group 0 None) "foo" (PInt 2))
      [Wrote 0 "foo" (PInt 2); Warning_new_entry (bar_field 7)] false
      [foo_field 2; bar_field 7]
    = (set_prop (example_group 0 None) "foo" (PInt 2),
       [Wrote 0 "foo" (PInt 2); Warning_new_entry (bar_field 7)] ++ evs,
       false, None)
    /\ wrote 0 evs = false.
Proof.
  apply (same_batch_twice int_ne accept [foo_field 2; bar_field 7]
           (example_group 0 None) [] false
           (set_prop (example_group 0 None) "foo" (PInt 2))
           [Wrote 0 "foo" (PInt 2); Warning_new_entry (bar_field 7)] true).
  - intros item attr v [<-|[<-|[]]] Hv; injection Hv as <-; reflexivity.
  - vm_compute. apply List.NoDup_cons; [intros [] | apply List.NoDup_nil].
  - reflexivity.
Defined.

(** Without the condition on the names the second pass can write: a batch
    that gives [Foo] two values writes both again. *)
Example same_batch_twice_needs_distinct :
  update_items int_ne accept (example_group 0 None) [] false
    [foo_field 2; foo_field 1]
  = (set_prop (set_prop (example_group 0 None) "foo" (PInt 2)) "foo" (PInt 1),
     [Wrote 0 "foo" (PInt 2); Wrote 0 "foo" (PInt 1)], true, None)
  /\ (update_items int_ne accept
        (set_prop (set_prop (example_group 0 None) "foo" (PInt 2)) "foo" (PInt 1))
        [] false [foo_field 2; foo_field 1]).1.2
     = true.
Proof. split; reflexivity. Qed.

Lemma slept_count_app (ms : Z) (a b : list event) :
  slept_count ms (a ++ b) = (slept_count ms a + slept_count ms b)%nat.
Proof. unfold slept_count. now rewrite List.filter_app, List.length_app. Qed.

Lemma failure_count_app (a b : list event) :
  failure_count (a ++ b) = (failure_count a + failure_count b)%nat.
Proof. unfold failure_count. now rewrite List.filter_app, List.length_app. Qed.

(** Events of the loop over the fields are no snapshot, no sleep and no
    failure of a sweep. *)
Lemma field_events_count (evs : list event) :
  forallb field_event evs = true ->
  (forall k, stored_count k evs = 0%nat)
  /\ (forall ms, slept_count ms evs = 0%nat)
  /\ failure_count evs = 0%nat.
Proof.
  induction evs as [|ev evs IH]; [now repeat split|].
  cbn [forallb]. intros H. apply andb_true_iff in H as [Hev H].
  destruct (IH H) as (Hs & Hz & Hf).
  unfold stored_count, slept_count, failure_count in *.
  destruct ev; try discriminate; cbn [List.filter]; auto.
Qed.

Section LoopEvents.

Variable value_ne : pyval -> pyval -> option bool.
Variable write : string -> pyval -> option pyval.

Lemma update_items_events (fields : list field) :
  forall g j c g' j' c' err,
  update_items value_ne write g j c fields = (g', j', c', err) ->
  exists evs, j' = j ++ evs /\ forallb field_event evs = true.
Proof.
  induction fields as [|item rest IH]; intros g j c g' j' c' err H.
  - injection H as _ <- _ _. exists []. now rewrite List.app_nil_r.
  - cbn [update_items] in H.
    destruct (key_to_attr_map g !! f_name item) as [attr|].
    + destruct (props g !! attr) as [current|].
      * destruct (compare_and_write value_ne write attr current (f_value item))
          as [[v|]|]; apply IH in H; try exact H;
          destruct H as (evs & -> & He); eexists (_ :: evs);
          rewrite <- List.app_assoc; split; try reflexivity; exact He.
      * injection H as _ <- _ _. exists []. now rewrite List.app_nil_r.
    + apply IH in H. destruct H as (evs & -> & He).
      exists (Warning_new_entry item :: evs).
      rewrite <- List.app_assoc. split; [reflexivity | exact He].
Qed.

Lemma update_requests_events (rs : list response) :
  forall g j c g' j' c' err,
  update_requests value_ne write g j c rs = (g', j', c', err) ->
  exists evs, j' = j ++ evs /\ forallb field_event evs = true.
Proof.
  induction rs as [|r rest IH]; intros g j c g' j' c' err H.
  - injection H as _ <- _ _. exists []. now rewrite List.app_nil_r.
  - cbn [update_requests] in H. destruct r as [fields|e].
    + destruct (update_items value_ne write g j c fields)
        as [[[g1 j1] c1] [e1|]] eqn:E1.
      * injection H as _ <- _ _. exact (update_items_events _ _ _ _ _ _ _ _ E1).
      * apply update_items_events in E1. destruct E1 as (evs1 & -> & He1).
        apply IH in H. destruct H as (evs2 & -> & He2).
        exists (evs1 ++ evs2). rewrite List.app_assoc. split; [reflexivity|].
        rewrite List.forallb_app. now rewrite He1, He2.
    + injection H as _ <- _ _. exists []. now rewrite List.app_nil_r.
Qed.

(** One update of a group, without a condition on the object: what it
    keeps, and how the document counts follow the snapshots. *)
Lemma update_group_effects (self : archstats) (g : group) (t : tick)
  (self' : archstats) (g' : group) (r : option exn) :
  _update_group value_ne write self g t = (self', g', r) ->
  shape g' = shape g
  /\ _dynamic_groups self' = _dynamic_groups self
  /\ exists evs, journal self' = journal self ++ evs
       /\ (forall ms, slept_count ms evs = 0%nat)
       /\ failure_count evs = 0%nat
       /\ (forall k, _document_count self' !! k
                     = (fun n => n + stored_count k evs)%nat
                         <$> _document_count self !! k)
       /\ (r <> None ->
           (forall k, stored_count k evs = 0%nat)
           /\ _document_count self' = _document_count self).
Proof.
  unfold _update_group. intros H.
  destruct (update_requests value_ne write g (journal self) false (responses t))
    as [[[g1 j1] c1] err] eqn:E.
  pose proof (update_requests_spec _ _ _ _ _ _ _ _ _ _ E)
    as (Hg & Hk & Hi & Hd & _).
  apply update_requests_events in E. destruct E as (evs & -> & He).
  destruct (field_events_count evs He) as (Hs & Hz & Hf).
  assert (Hshape : shape g1 = shape g).
  { unfold shape. now rewrite Hg, Hk, Hi, Hd. }
  assert (Hquiet : forall k,
    _document_count self !! k
    = (fun n => n + stored_count k evs)%nat <$> _document_count self !! k).
  { intros k. rewrite Hs. destruct (_document_count self !! k); cbn; f_equal; lia. }
  assert (Hsame :
    shape g1 = shape g
    /\ _dynamic_groups (set_journal self (journal self ++ evs))
       = _dynamic_groups self
    /\ exists evs0,
         journal (set_journal self (journal self ++ evs)) = journal self ++ evs0
         /\ (forall ms, slept_count ms evs0 = 0%nat)
         /\ failure_count evs0 = 0%nat
         /\ (forall k, _document_count (set_journal self (journal self ++ evs)) !! k
                       = (fun n => n + stored_count k evs0)%nat
                           <$> _document_count self !! k)
         /\ (forall k, stored_count k evs0 = 0%nat)
         /\ _document_count (set_journal self (journal self ++ evs))
            = _document_count self).
  { split; [exact Hshape|]. split; [reflexivity|]. exists evs. repeat split; auto. }
  assert (Hout : forall e : option exn,
    shape g1 = shape g
    /\ _dynamic_groups (set_journal self (journal self ++ evs))
       = _dynamic_groups self
    /\ exists evs0,
         journal (set_journal self (journal self ++ evs)) = journal self ++ evs0
         /\ (forall ms, slept_count ms evs0 = 0%nat)
         /\ failure_count evs0 = 0%nat
         /\ (forall k, _document_count (set_journal self (journal self ++ evs)) !! k
                       = (fun n => n + stored_count k evs0)%nat
                           <$> _document_count self !! k)
         /\ (e <> None ->
             (forall k, stored_count k evs0 = 0%nat)
             /\ _document_count (set_journal self (journal self ++ evs))
                = _document_count self)).
  { intros e. destruct Hsame as (H1 & H2 & evs0 & H3 & H4 & H5 & H6 & H7 & H8).
    split; [exact H1|]. split; [exact H2|]. exists evs0. repeat split; auto. }
  destruct err as [e|]; [injection H as <- <- <-; apply Hout|].
  cbn [set_journal _document_count] in H.
  destruct (_document_count self !! gid g1) as [n|] eqn:En;
    [|injection H as <- <- <-; apply Hout].
  destruct (c1 || (Nat.eqb n 0 && is_none (init_document g1)));
    [|injection H as <- <- <-; apply Hout].
  destruct (store_raises t) as [e|]; [injection H as <- <- <-; apply Hout|].
  injection H as <- <- <-.
  split; [exact Hshape|]. split; [reflexivity|].
  exists (evs ++ [Stored (gid g1)]).
  cbn [set_count log set_journal journal _document_count].
  rewrite List.app_assoc. split; [reflexivity|].
  split; [intros ms; now rewrite slept_count_app, Hz|].
  split; [now rewrite failure_count_app, Hf|].
  split; [|intros Hne; now destruct Hne].
  intros k. rewrite stored_count_app, Hs.
  unfold stored_count at 1. cbn [List.filter].
  destruct (Nat.eqb_spec k (gid g1)) as [->|Hne].
  - rewrite lookup_insert_eq, En. cbn. f_equal.
  - rewrite lookup_insert_ne by congruence.
    destruct (_document_count self !! k); cbn; f_equal; lia.
Qed.

End LoopEvents.

(** X13: an update that raises stores no snapshot and leaves every document
    count as it is, even when attributes were written before the
    exception. *)
Theorem raising_update_stores_nothing
  (value_ne : pyval -> pyval -> option bool)
  (write : string -> pyval -> option pyval)
  (self : archstats) (g : group) (t : tick)
  (self' : archstats) (g' : group) (e : exn) :
  _update_group value_ne write self g t = (self', g', Some e) ->
  _document_count self' = _document_count self
  /\ exists evs, journal self' = journal self ++ evs
                 /\ forall k, stored_count k evs = 0%nat.
Proof.
  intros H.
  destruct (update_group_effects _ _ _ _ _ _ _ _ H)
    as (_ & _ & evs & Hj & _ & _ & _ & Hr).
  destruct Hr as [Hs Hc]; [discriminate|].
  split; [exact Hc|]. exists evs. now split.
Qed.

Lemma raising_update_stores_nothing_witness :
  _update_group int_ne accept (example_ioc [example_group 0 None])
    (example_group 0 None) half_tick
  = (set_journal (example_ioc [example_group 0 None]) [Wrote 0 "foo" (PInt 2)],
     set_prop (example_group 0 None) "foo" (PInt 2), Some TransportError)
  /\ _document_count
       (set_journal (example_ioc [example_group 0 None]) [Wrote 0 "foo" (PInt 2)])
     = _document_count (example_ioc [example_group 0 None]).
Proof.
  assert (H : _update_group int_ne accept (example_ioc [example_group 0 None])
                (example_group 0 None) half_tick
              = (set_journal (example_ioc [example_group 0 None])
                   [Wrote 0 "foo" (PInt 2)],
                 set_prop (example_group 0 None) "foo" (PInt 2),
                 Some TransportError)) by reflexivity.
  split; [exact H|].
  exact (proj1 (raising_update_stores_nothing int_ne accept _ _ _ _ _ _ H)).
Defined.

Lemma counts_follow_compose (m m1 m2 : gmap nat nat) (evs1 evs2 : list event) :
  (forall k, m1 !! k = (fun n => n + stored_count k evs1)%nat <$> m !! k) ->
  (forall k, m2 !! k = (fun n => n + stored_count k evs2)%nat <$> m1 !! k) ->
  forall k, m2 !! k = (fun n => n + stored_count k (evs1 ++ evs2))%nat <$> m !! k.
Proof.
  intros H1 H2 k. rewrite H2, H1, stored_count_app.
  destruct (m !! k); cbn; f_equal; lia.
Qed.

Section Sweeps.

Variable value_ne : pyval -> pyval -> option bool.
Variable write : string -> pyval -> option pyval.

(** The loop over the groups of a sweep: what it keeps and what it adds. *)
Lemma update_groups_effects (todo : list group) (env : nat -> tick) :
  forall self gs self' err,
  update_groups value_ne write self todo env = (gs, self', err) ->
  List.map shape gs = List.map shape todo
  /\ exists evs, journal self' = journal self ++ evs
       /\ slept_count (update_rate * 1000) evs = 0%nat
       /\ slept_count 10000 evs = 0%nat
       /\ (slept_count 100 evs <= List.length todo)%nat
       /\ (err = None -> slept_count 100 evs = List.length todo)
       /\ failure_count evs = 0%nat
       /\ (forall k, _document_count self' !! k
                     = (fun n => n + stored_count k evs)%nat
                         <$> _document_count self !! k).
Proof.
  induction todo as [|g rest IH]; intros self gs self' err H.
  - injection H as <- <- <-. split; [reflexivity|].
    exists []. rewrite List.app_nil_r. repeat split; cbn; auto.
    intros k. destruct (_document_count self !! k); cbn; f_equal; try lia.
  - cbn [update_groups] in H.
    destruct (_update_group value_ne write self g (env (gid g)))
      as [[self1 g1] r] eqn:E.
    destruct (update_group_effects _ _ _ _ _ _ _ _ E)
      as (Hshape & _ & evs1 & Hj1 & Hz1 & Hf1 & Hc1 & _).
    destruct r as [e|].
    + injection H as <- <- <-. cbn [List.map]. rewrite Hshape.
      split; [reflexivity|]. exists evs1.
      rewrite !Hz1. cbn [List.length]. repeat split; auto; try lia; discriminate.
    + destruct (update_groups value_ne write (log self1 [Slept 100]) rest env)
        as [[rest' self2] err2] eqn:E2.
      injection H as <- <- <-.
      destruct (IH _ _ _ _ E2)
        as (Hshapes & evs2 & Hj2 & Hz2 & Hb2 & Hle2 & Hall2 & Hf2 & Hc2).
      cbn [List.map]. rewrite Hshape, Hshapes. split; [reflexivity|].
      exists (evs1 ++ Slept 100 :: evs2).
      cbn [log journal _document_count] in Hj2, Hc2.
      rewrite Hj2, Hj1, <- !List.app_assoc. cbn [app].
      split; [reflexivity|].
      rewrite !slept_count_app, failure_count_app, !Hz1, Hf1.
      change (Slept 100 :: evs2) with ([Slept 100] ++ evs2).
      rewrite !slept_count_app, failure_count_app, Hz2, Hb2, Hf2.
      cbn [List.length]. repeat split; auto.
      * cbn. lia.
      * intros He. cbn. now rewrite (Hall2 He).
      * intros k. specialize (Hc1 k). specialize (Hc2 k).
        rewrite Hc2, Hc1, !stored_count_app.
        destruct (_document_count self !! k); cbn; f_equal.
        unfold stored_count. cbn [List.filter List.length]. lia.
Qed.

(** One sweep. *)
Lemma sweep_effects (self : archstats) (env : nat -> tick) :
  List.map shape (_dynamic_groups (sweep value_ne write self env))
  = List.map shape (_dynamic_groups self)
  /\ exists evs, journal (sweep value_ne write self env) = journal self ++ evs
       /\ slept_count (update_rate * 1000) evs = 1%nat
       /\ slept_count 10000 evs = failure_count evs
       /\ (failure_count evs <= 1)%nat
       /\ (forall k, _document_count (sweep value_ne write self env) !! k
                     = (fun n => n + stored_count k evs)%nat
                         <$> _document_count self !! k).
Proof.
  unfold sweep.
  destruct (update_groups value_ne write self (_dynamic_groups self) env)
    as [[gs self1] err] eqn:E.
  destruct (update_groups_effects _ _ _ _ _ _ E)
    as (Hshapes & evs & Hj & Hz & Hb & _ & _ & Hf & Hc).
  destruct err as [e|];
    cbn [log set_groups journal _document_count _dynamic_groups].
  - split; [exact Hshapes|].
    exists (evs ++ [Exception_update_failed; Slept 10000; Slept (update_rate * 1000)]).
    rewrite Hj, <- !List.app_assoc. cbn [app]. split; [reflexivity|].
    rewrite !slept_count_app, failure_count_app, Hz, Hb, Hf.
    repeat split; auto.
    intros k. rewrite Hc, stored_count_app.
    destruct (_document_count self !! k); cbn; f_equal; try lia.
  - split; [exact Hshapes|].
    exists (evs ++ [Slept (update_rate * 1000)]).
    rewrite Hj, <- !List.app_assoc. split; [reflexivity|].
    rewrite !slept_count_app, failure_count_app, Hz, Hb, Hf.
    repeat split; auto.
    intros k. rewrite Hc, stored_count_app.
    destruct (_document_count self !! k); cbn; f_equal; try lia.
Qed.

(** Any number of sweeps. *)
Lemma updater_effects (envs : list (nat -> tick)) :
  forall self,
  List.map shape (_dynamic_groups (updater value_ne write self envs))
  = List.map shape (_dynamic_groups self)
  /\ exists evs, journal (updater value_ne write self envs) = journal self ++ evs
       /\ slept_count (update_rate * 1000) evs = List.length envs
       /\ slept_count 10000 evs = failure_count evs
       /\ (failure_count evs <= List.length envs)%nat
       /\ (forall k, _document_count (updater value_ne write self envs) !! k
                     = (fun n => n + stored_count k evs)%nat
                         <$> _document_count self !! k).
Proof.
  induction envs as [|env envs IH]; intros self.
  - split; [reflexivity|]. exists []. rewrite List.app_nil_r.
    repeat split; auto.
    intros k. cbn [updater]. destruct (_document_count self !! k); cbn; f_equal; lia.
  - cbn [updater].
    destruct (sweep_effects self env) as (Hs1 & evs1 & Hj1 & Hz1 & Hb1 & Hf1 & Hc1).
    destruct (IH (sweep value_ne write self env))
      as (Hs2 & evs2 & Hj2 & Hz2 & Hb2 & Hf2 & Hc2).
    split; [now rewrite Hs2|].
    exists (evs1 ++ evs2). rewrite Hj2, Hj1, <- List.app_assoc.
    split; [reflexivity|].
    rewrite !slept_count_app, failure_count_app, Hz1, Hz2, Hb1, Hb2.
    cbn [List.length]. repeat split; auto; try lia.
    exact (counts_follow_compose _ _ _ _ _ Hc1 Hc2).
Qed.

End Sweeps.

(** X14: over any number of sweeps, whatever fails, the document count of
    each group goes up by the number of snapshots stored for that group,
    and no count appears or disappears. *)
Theorem document_count_counts_snapshots
  (value_ne : pyval -> pyval -> option bool)
  (write : string -> pyval -> option pyval)
  (self : archstats) (envs : list (nat -> tick)) :
  exists evs,
    journal (updater value_ne write self envs) = journal self ++ evs
    /\ forall k, _document_count (updater value_ne write self envs) !! k
                 = (fun n => n + stored_count k evs)%nat
                     <$> _document_count self !! k.
Proof.
  destruct (updater_effects value_ne write envs self) as (_ & evs & Hj & _ & _ & _ & Hc).
  exists evs. now split.
Qed.

(** X15: over any number of sweeps, whatever fails, the loop sleeps
    [update_rate] seconds once per sweep, logs at most one failure per
    sweep, and sleeps 10 seconds once per logged failure. *)
Theorem updater_pace
  (value_ne : pyval -> pyval -> option bool)
  (write : string -> pyval -> option pyval)
  (self : archstats) (envs : list (nat -> tick)) :
  exists evs,
    journal (updater value_ne write self envs) = journal self ++ evs
    /\ slept_count (update_rate * 1000) evs = List.length envs
    /\ slept_count 10000 evs = failure_count evs
    /\ (failure_count evs <= List.length envs)%nat.
Proof.
  destruct (updater_effects value_ne write envs self)
    as (_ & evs & Hj & Hz & Hb & Hf & _).
  exists evs. repeat split; assumption.
Qed.

(** X16: over any number of sweeps, whatever fails, the groups stay the
    same in number and order, and each keeps its identity, its
    [key_to_attr_map], its initial document and its set of attributes. *)
Theorem updater_keeps_groups
  (value_ne : pyval -> pyval -> option bool)
  (write : string -> pyval -> option pyval)
  (self : archstats) (envs : list (nat -> tick)) :
  List.map shape (_dynamic_groups (updater value_ne write self envs))
  = List.map shape (_dynamic_groups self).
Proof. exact (proj1 (updater_effects value_ne write envs self)). Qed.

(** Two sweeps of two groups: the first fails at group 0, which comes
    second; in the next one group 1 goes back to its old value and group 0
    stores its first snapshot. *)
Example two_sweeps :
  journal (updater int_ne accept
             (example_ioc [example_group 1 None; example_group 0 None])
             [first_fails; fun _ => quiet_tick])
  = [Wrote 1 "foo" (PInt 2); Stored 1; Slept 100;
     Exception_update_failed; Slept 10000; Slept 60000;
     Wrote 1 "foo" (PInt 1); Stored 1; Slept 100;
     Stored 0; Slept 100; Slept 60000].
Proof. vm_compute. reflexivity. Qed.

(** ** More on the attribute specifications and the process names *)

(** X17: when building the keyword arguments returns, the value is the
    coerced value, the documentation string is the key, the record type is
    [bi] for a [bool], [longin] for an [int], [ai] for a [float] and
    [stringin] for a [str], and [report_as_string] and the maximal length
    2000 are set exactly for a [str]. *)
Theorem kwargs_by_type
  (lit : string -> option pyval) (fuel : nat) (key : string)
  (raw v v' : pyval) (kw : pvproperty_kwargs) :
  archiver_literal_eval lit fuel raw = Ok v ->
  _value_to_pvproperty_kwargs lit fuel key raw = Ok (v', kw) ->
  v' = v
  /\ doc kw = key
  /\ match v with
     | PBool _ => record kw = bi
     | PInt _ => record kw = longin
     | PFloat _ => record kw = ai
     | PStr _ => record kw = stringin
     | _ => False
     end
  /\ report_as_string kw = (if is_str v then Some true else None)
  /\ max_length kw = (if is_str v then Some 2000 else None).
Proof.
  intros Hv. unfold _value_to_pvproperty_kwargs. rewrite Hv. cbn [bind].
  destruct v; cbn; intros H; try discriminate;
    injection H as <- <-; repeat split.
Qed.

Lemma kwargs_by_type_witness :
  record {| doc := "up"; record := bi; report_as_string := None;
            max_length := None |} = bi.
Proof.
  apply (kwargs_by_type Literal.literal_eval 2 "up" (PStr "True") (PBool true)
           (PBool true));
    vm_compute; reflexivity.
Defined.

Lemma split1_head_before (sep : ascii) (a b : string) :
  Str.contains (String sep "") a = false ->
  Str.split1_head sep (a +:+ String sep b) = a.
Proof.
  induction a as [|c a IH]; intros H.
  - change ("" +:+ String sep b) with (String sep b).
    cbn [Str.split1_head]. now rewrite Ascii.eqb_refl.
  - rewrite append_cons. cbn [Str.split1_head].
    cbn [Str.contains String.prefix] in H.
    apply orb_false_iff in H as [Hc Ha].
    destruct (Ascii.eqb_spec c sep) as [->|Hne].
    + destruct (ascii_dec sep sep); [|contradiction]. now destruct a.
    + now rewrite IH.
Qed.

Lemma split1_head_none (sep : ascii) (a : string) :
  Str.contains (String sep "") a = false -> Str.split1_head sep a = a.
Proof.
  induction a as [|c a IH]; intros H; [reflexivity|].
  cbn [Str.split1_head]. cbn [Str.contains String.prefix] in H.
  apply orb_false_iff in H as [Hc Ha].
  destruct (Ascii.eqb_spec c sep) as [->|Hne].
  - destruct (ascii_dec sep sep); [|contradiction]. now destruct a.
  - now rewrite IH.
Qed.

(** X18: the name of a process field comes from the part of the label
    before its first space only: a label that differs after that space, and
    the label that is that part alone, give the same name.  When that part
    is ASCII text the name is its camelized form. *)
Theorem process_name_is_first_word
  (d : list (pyval * pyval)) (first rest : string) :
  forallb (fun kv => is_str (fst kv)) d = true ->
  keyword d "label" (PStr "unknown") = PStr (first +:+ " " +:+ rest) ->
  Str.contains " " first = false ->
  exists fld,
    to_process_info (PDict d) = Ok fld
    /\ (forall d' rest',
          forallb (fun kv => is_str (fst kv)) d' = true ->
          keyword d' "label" (PStr "unknown") = PStr (first +:+ " " +:+ rest')
          \/ keyword d' "label" (PStr "unknown") = PStr first ->
          exists fld', to_process_info (PDict d') = Ok fld'
                       /\ f_name fld' = f_name fld)
    /\ (ascii_text first = true -> f_name fld = Inflection.camelize first).
Proof.
  intros Hkeys Hlabel Hfirst. unfold to_process_info.
  rewrite Hkeys, Hlabel. cbn [as_str bind].
  eexists. split; [reflexivity|]. cbn [f_name].
  change (first +:+ " " +:+ rest) with (first +:+ String " " rest).
  rewrite (split1_head_before " " first rest Hfirst). split.
  - intros d' rest' Hkeys' [Hlabel'|Hlabel']; rewrite Hkeys', Hlabel';
      cbn [as_str bind]; eexists; (split; [reflexivity|]); cbn [f_name].
    + change (first +:+ " " +:+ rest') with (first +:+ String " " rest').
      now rewrite (split1_head_before " " first rest' Hfirst).
    + now rewrite (split1_head_none " " first Hfirst).
  - intros _. reflexivity.
Qed.

Lemma process_name_is_first_word_witness :
  exists fld,
    to_process_info (jobj [("label", PStr "Foo Baz"); ("data", PList [])])
    = Ok fld
    /\ f_name fld = "Foo"
    /\ exists fld',
         to_process_info (jobj [("label", PStr "Foo Bar")]) = Ok fld'
         /\ f_name fld' = f_name fld.
Proof.
  destruct (process_name_is_first_word
              [(PStr "label", PStr "Foo Baz"); (PStr "data", PList [])]
              "Foo" "Baz" eq_refl eq_refl eq_refl)
    as (fld & Hfld & Hsame & Hname).
  exists fld. split; [exact Hfld|]. split; [exact (Hname eq_refl)|].
  apply (Hsame [(PStr "label", PStr "Foo Bar")] "Bar" eq_refl).
  left. reflexivity.
Defined.
